(** * go-circuit-breaker: a shallow embedding of the window engine

    The development follows the Go sources: [bucket.go] (bucket names),
    [cache.go] (the two [cache] adapters behind the [Cache] interface) and
    [circuit_breaker.go] (construction, key generation, aggregation,
    threshold checks and the trip / warning flags).

    Conventions.
    - Go's [int] and [time.Duration] are 64-bit two's complement integers;
      they are carried as [Z] and every arithmetic operation of the source
      is wrapped with [wrap64].
    - A [time.Time] in UTC without monotonic reading is carried as the
      number of nanoseconds elapsed since 0001-01-01T00:00:00Z, the zero
      time that [Time.Truncate] counts from.  The saturation of [Time.Add]
      some 292 billion years away from the zero time is not modelled.
    - [interface{}] values are carried by the type [any] of dynamic values;
      a failed type assertion is the result [Panic].
    - A loop without a structural bound runs on fuel; the result [Loop]
      means that the fuel was used up. *)

From Stdlib Require Import ZArith Lia List Ascii String DecimalString.
From Stdlib Require Import Sorting.Sorted Sorting.Permutation.
From stdpp Require Import gmap strings list fin_maps sorting.

#[local] Set Warnings "-register-all".
#[local] Open Scope Z_scope.

(** ** Machine integers *)

Module GoInt.

Definition MaxInt : Z := 2 ^ 63 - 1.
Definition MinInt : Z := - 2 ^ 63.

(** Reduction of a mathematical integer to its two's complement value. *)
Definition wrap64 (z : Z) : Z := (z + 2 ^ 63) mod 2 ^ 64 - 2 ^ 63.

Definition in_range (z : Z) : Prop := MinInt <= z <= MaxInt.

Definition add (x y : Z) : Z := wrap64 (x + y).
Definition mul (x y : Z) : Z := wrap64 (x * y).

End GoInt.

(** ** Instants, durations and their text forms (package [time]) *)

Module GoTime.

Definition Duration : Type := Z.
Definition Time : Type := Z.

Definition Nanosecond : Duration := 1.
Definition Microsecond : Duration := 1000 * Nanosecond.
Definition Millisecond : Duration := 1000 * Microsecond.
Definition Second : Duration := 1000 * Millisecond.
Definition Minute : Duration := 60 * Second.
Definition Hour : Duration := 60 * Minute.

Definition Add (t : Time) (d : Duration) : Time := t + d.
Definition After (t u : Time) : bool := u <? t.
Definition Equal (t u : Time) : bool := t =? u.

(** [t.Truncate(d)]: [t] rounded down to a multiple of [d] since the zero
    time; [t] itself when [d <= 0]. *)
Definition Truncate (t : Time) (d : Duration) : Time :=
  if d <=? 0 then t else t - t mod d.

(** *** Calendar *)

Definition secondsPerDay : Z := 86400.

(** Days from 0001-01-01 to the first day of month [m] (1..12) of the
    proleptic Gregorian year [y]. *)
Definition daysBefore (y m : Z) : Z :=
  let y' := if m <=? 2 then y - 1 else y in
  let era := y' / 400 in
  let yoe := y' - era * 400 in
  let mp := if m <=? 2 then m + 9 else m - 3 in
  let doy := (153 * mp + 2) / 5 in
  let doe := yoe * 365 + yoe / 4 - yoe / 100 + doy in
  era * 146097 + doe - 306.

(** [time.Date(year, month, day, hour, min, sec, nsec, time.UTC)];
    out-of-range fields carry over as in Go. *)
Definition Date (year month day hour min sec nsec : Z) : Time :=
  let m0 := month - 1 in
  let y := year + m0 / 12 in
  let m := m0 mod 12 + 1 in
  (((daysBefore y m + (day - 1)) * secondsPerDay
    + hour * 3600 + min * 60 + sec) * Second) + nsec.

(** Year, month and day of the day number [days] counted from
    0001-01-01. *)
Definition civil (days : Z) : Z * Z * Z :=
  let z := days + 306 in
  let era := z / 146097 in
  let doe := z - era * 146097 in
  let yoe := (doe - doe / 1460 + doe / 36524 - doe / 146096) / 365 in
  let doy := doe - (365 * yoe + yoe / 4 - yoe / 100) in
  let mp := (5 * doy + 2) / 153 in
  let d := doy - (153 * mp + 2) / 5 + 1 in
  let m := if mp <? 10 then mp + 3 else mp - 9 in
  let y := yoe + era * 400 + (if m <=? 2 then 1 else 0) in
  (y, m, d).

(** *** Decimal output *)

Definition fmtInt (v : Z) : string :=
  NilZero.string_of_uint (N.to_uint (Z.to_N v)).

Definition digitChar (d : Z) : ascii := ascii_of_nat (48 + Z.to_nat d).

Fixpoint zeros (n : nat) : string :=
  match n with
  | O => EmptyString
  | S k => String "0" (zeros k)
  end.

(** [appendInt] of [time/format.go]: sign, zero padding to [width]. *)
Definition appendInt (x : Z) (width : nat) : string :=
  let digits := fmtInt (Z.abs x) in
  (if x <? 0 then "-" else "")
    +:+ zeros (width - String.length digits) +:+ digits.

(** [t.Format("200601021504")]: year, month, day, hour and minute. *)
Definition Format200601021504 (t : Time) : string :=
  let sec := t / Second in
  let '(y, m, d) := civil (sec / secondsPerDay) in
  let sod := sec mod secondsPerDay in
  appendInt y 4 +:+ appendInt m 2 +:+ appendInt d 2
    +:+ appendInt (sod / 3600) 2 +:+ appendInt (sod mod 3600 / 60) 2.

(** [fmtFrac] of [time/time.go]: the fraction [v / 10^prec] without
    trailing zeros, written in front of [acc]; also returns
    [v / 10^prec]. *)
Fixpoint fmtFrac (prec : nat) (v : Z) (print : bool) (acc : string)
  : string * Z :=
  match prec with
  | O => ((if print then String "." acc else acc), v)
  | S p =>
      let digit := v mod 10 in
      let print' := print || negb (digit =? 0) in
      fmtFrac p (v / 10) print'
        (if print' then String (digitChar digit) acc else acc)
  end.

Definition micro : string :=
  String (ascii_of_nat 194) (String (ascii_of_nat 181) EmptyString).

(** [Duration.String]. *)
Definition DurationString (d : Duration) : string :=
  let u := Z.abs d in
  let body :=
    if u <? Second then
      if u =? 0 then "0s"
      else if u <? Microsecond then
        let '(f, v) := fmtFrac 0 u false "ns" in fmtInt v +:+ f
      else if u <? Millisecond then
        let '(f, v) := fmtFrac 3 u false (micro +:+ "s") in fmtInt v +:+ f
      else
        let '(f, v) := fmtFrac 6 u false "ms" in fmtInt v +:+ f
    else
      let '(f, s) := fmtFrac 9 u false "s" in
      let secs := fmtInt (s mod 60) +:+ f in
      let mi := s / 60 in
      if 0 <? mi then
        let mins := fmtInt (mi mod 60) +:+ "m" in
        let h := mi / 60 in
        if 0 <? h then fmtInt h +:+ "h" +:+ mins +:+ secs
        else mins +:+ secs
      else secs in
  if d <? 0 then "-" +:+ body else body.

End GoTime.

Import GoInt GoTime.

(** ** Dynamic values, errors and results *)

(** The values an [interface{}] holds in this program. *)
Inductive any : Type :=
| Nil
| Bool (b : bool)
| Int (z : Z)
| Str (s : string)
| MapStringInt (m : gmap string Z)
| MapStringAny (m : gmap string any).

(** [ErrCacheMiss] of [cache.go], and the errors of the backing store. *)
Inductive error : Type :=
| ErrCacheMiss
| StoreError (msg : string).

Inductive panic : Type :=
| IndexOutOfRange
| TypeAssertion.

Inductive outcome (A : Type) : Type :=
| Return (a : A)
| Panic (p : panic)
| Loop.

Arguments Return {A} a.
Arguments Panic {A} p.
Arguments Loop {A}.

(** ** Buckets ([bucket.go]) *)

Record Bucket : Type := mkBucket {
  Duration : GoTime.Duration;
  Name : string
}.

Definition isDigit (a : ascii) : bool :=
  ((48 <=? nat_of_ascii a) && (nat_of_ascii a <=? 57))%nat.

Fixpoint digitsPrefix (s : string) : string * string :=
  match s with
  | EmptyString => (EmptyString, EmptyString)
  | String a r =>
      if isDigit a then
        let '(ds, rest) := digitsPrefix r in (String a ds, rest)
      else (EmptyString, s)
  end.

(** [regexp.MustCompile(ParseNameFromDurationRegex).FindString(s)] for
    the pattern [^\d+(h|m)]: the leading run of digits and the unit letter
    that follows it, or the empty string. *)
Definition FindName (s : string) : string :=
  match digitsPrefix s with
  | (EmptyString, _) => EmptyString
  | (ds, String a _) =>
      if (Ascii.eqb a "h" || Ascii.eqb a "m")%bool
      then ds +:+ String a EmptyString
      else EmptyString
  | (_, EmptyString) => EmptyString
  end.

Definition setName (c : Bucket) : Bucket :=
  {| Duration := Duration c; Name := FindName (DurationString (Duration c)) |}.

Definition NewBucket (duration : GoTime.Duration) : Bucket :=
  let bucket := {| Duration := duration; Name := EmptyString |} in
  setName bucket.

(** ** The store behind the engine ([adapter.go], [cache.go]) *)

(** Both interfaces are carried as records of state transformers over the
    state [S] of the backing store. *)
Module Adapter.
Record t (S : Type) : Type := mk {
  Delete : string -> S -> S;
  Get : string -> S -> (any * bool) * S;
  IncrementInt : string -> Z -> S -> (Z * option error) * S;
  Set_ : string -> any -> GoTime.Duration -> S -> S
}.
Arguments mk {S}.
Arguments Delete {S}.
Arguments Get {S}.
Arguments IncrementInt {S}.
Arguments Set_ {S}.
End Adapter.

Module Cache.
Record t (S : Type) : Type := mk {
  Get : string -> S -> (any * option error) * S;
  Set_ : string -> any -> GoTime.Duration -> S -> S;
  GetMulti : list string -> S -> any * S;
  IncrementInt : string -> Z -> S -> (Z * option error) * S
}.
Arguments mk {S}.
Arguments Get {S}.
Arguments Set_ {S}.
Arguments GetMulti {S}.
Arguments IncrementInt {S}.
End Cache.

(** The [cache] struct of [cache.go] over an [Adapter]. *)
Module cache.
Section Methods.
Context {S : Type}.
Variable Cache : Adapter.t S.
Variable ExpirationDuration : GoTime.Duration.

Definition Get (key : string) (s : S) : (any * option error) * S :=
  let '((object, found), s) := Adapter.Get Cache key s in
  if negb found then ((Nil, Some ErrCacheMiss), s)
  else ((object, None), s).

Definition Set_ (key : string) (value : any) (ttl : GoTime.Duration)
           (s : S) : S :=
  let duration := GoInt.mul 0 Minute in
  let duration := if 0 <? ttl then ttl else ExpirationDuration in
  Adapter.Set_ Cache key value duration s.

Fixpoint GetMulti_range (keys : list string) (result : gmap string any)
         (s : S) : gmap string any * S :=
  match keys with
  | [] => (result, s)
  | key :: keys =>
      let '((object, _), s) := Adapter.Get Cache key s in
      match object with
      | Nil => GetMulti_range keys result s
      | _ => GetMulti_range keys (<[key := object]> result) s
      end
  end.

Definition GetMulti (keys : list string) (s : S) : any * S :=
  let '(result, s) := GetMulti_range keys ∅ s in
  (MapStringAny result, s).

Definition IncrementInt (key : string) (val : Z) (s : S)
  : (Z * option error) * S :=
  Adapter.IncrementInt Cache key val s.

Definition NewCache : Cache.t S :=
  Cache.mk Get Set_ GetMulti IncrementInt.
End Methods.
End cache.

(** The other [cache] struct of [cache.go], which holds a
    [*goCache.Cache]; that store offers the methods of [Adapter] and is
    carried as one. *)
Module gocache.
Section Methods.
Context {S : Type}.
Variable Cache : Adapter.t S.
Variable ExpirationDuration : GoTime.Duration.

Definition Get (key : string) (s : S) : (any * option error) * S :=
  let '((object, found), s) := Adapter.Get Cache key s in
  if negb found then ((Nil, Some ErrCacheMiss), s)
  else ((object, None), s).

Definition Set_ (key : string) (value : any) (ttl : GoTime.Duration)
           (s : S) : S :=
  let duration := GoInt.mul 0 Minute in
  let duration := if 0 <? ttl then ttl else ExpirationDuration in
  Adapter.Set_ Cache key value duration s.

Fixpoint GetMulti_range (keys : list string) (result : gmap string any)
         (s : S) : gmap string any * S :=
  match keys with
  | [] => (result, s)
  | key :: keys =>
      let '((object, _), s) := Adapter.Get Cache key s in
      GetMulti_range keys (<[key := object]> result) s
  end.

Definition GetMulti (keys : list string) (s : S) : any * S :=
  let '(result, s) := GetMulti_range keys ∅ s in
  (MapStringAny result, s).

Definition IncrementInt (key : string) (val : Z) (s : S)
  : (Z * option error) * S :=
  Adapter.IncrementInt Cache key val s.

Definition NewCache : Cache.t S :=
  Cache.mk Get Set_ GetMulti IncrementInt.
End Methods.
End gocache.

(** ** The engine ([circuit_breaker.go]) *)

Definition DefaultBucket : list Bucket :=
  [ NewBucket (GoInt.mul 4 Hour); NewBucket Hour;
    NewBucket (GoInt.mul 5 Minute); NewBucket Minute ].

Definition WarningAlertKeyExpiration : GoTime.Duration := GoInt.mul Hour 12.

(** The calls that reach the [Cache] interface, in the order they are
    made. *)
Inductive Call : Type :=
| CallGet (key : string)
| CallSet (key : string) (value : any) (ttl : GoTime.Duration)
| CallGetMulti (keys : list string)
| CallIncrementInt (key : string) (val : Z).

(** What a method runs against: the state of the backing store, the
    instant [time.Now().UTC()] reports, and the record of the calls made
    to the store so far. *)
Record World (S : Type) : Type := mkWorld {
  store : S;
  clock : Time;
  calls : list Call
}.

Arguments mkWorld {S}.
Arguments store {S}.
Arguments clock {S}.
Arguments calls {S}.

Definition M (S A : Type) : Type := World S -> outcome A * World S.

#[global] Instance M_ret {S} : MRet (M S) :=
  fun A (a : A) w => (Return a, w).

#[global] Instance M_bind {S} : MBind (M S) :=
  fun A B (k : A -> M S B) (m : M S A) w =>
    match m w with
    | (Return a, w') => k a w'
    | (Panic p, w') => (Panic p, w')
    | (Loop, w') => (Loop, w')
    end.

Definition lift {S A} (r : outcome A) : M S A := fun w => (r, w).

Definition timeNowUTC {S} : M S Time := fun w => (Return (clock w), w).

Definition record {S} (c : Call) (s : S) (w : World S) : World S :=
  {| store := s; clock := clock w; calls := calls w ++ [c] |}.

Record circuitBreaker (S : Type) : Type := mkCircuitBreaker {
  cb_Cache : Cache.t S;
  Active : bool;
  Buckets : list Bucket;
  CacheTTL : GoTime.Duration;
  ConfigName : string;
  FeatureName : string;
  HeadKeys : list string;
  Threshold : Z;
  TripKey : string;
  WarningAlertKey : string;
  WindowDuration : GoTime.Duration;
  WindowDurationStr : string;
  (** Modelled from the spec: the [warningThreshold] field, which the
      tests and the README set through [SetWarningThreshold] and which
      the struct under [src/] does not declare. *)
  WarningThreshold : Z
}.

Arguments mkCircuitBreaker {S}.
Arguments cb_Cache {S}.
Arguments Active {S}.
Arguments Buckets {S}.
Arguments CacheTTL {S}.
Arguments ConfigName {S}.
Arguments FeatureName {S}.
Arguments HeadKeys {S}.
Arguments Threshold {S}.
Arguments TripKey {S}.
Arguments WarningAlertKey {S}.
Arguments WindowDuration {S}.
Arguments WindowDurationStr {S}.
Arguments WarningThreshold {S}.

Section Engine.
Context {S : Type}.

(** *** Calls through [c.Cache] *)

Definition Cache_Get (c : circuitBreaker S) (key : string)
  : M S (any * option error) :=
  fun w =>
    let '(r, s) := Cache.Get (cb_Cache c) key (store w) in
    (Return r, record (CallGet key) s w).

Definition Cache_Set (c : circuitBreaker S) (key : string) (value : any)
           (ttl : GoTime.Duration) : M S unit :=
  fun w =>
    let s := Cache.Set_ (cb_Cache c) key value ttl (store w) in
    (Return tt, record (CallSet key value ttl) s w).

Definition Cache_GetMulti (c : circuitBreaker S) (keys : list string)
  : M S any :=
  fun w =>
    let '(r, s) := Cache.GetMulti (cb_Cache c) keys (store w) in
    (Return r, record (CallGetMulti keys) s w).

Definition Cache_IncrementInt (c : circuitBreaker S) (key : string)
           (val : Z) : M S (Z * option error) :=
  fun w =>
    let '(r, s) := Cache.IncrementInt (cb_Cache c) key val (store w) in
    (Return r, record (CallIncrementInt key val) s w).

(** *** Type assertions *)

Definition assertMapStringInt (v : any) : outcome (gmap string Z) :=
  match v with
  | MapStringInt m => Return m
  | _ => Panic TypeAssertion
  end.

Definition assertBool (v : any) : outcome bool :=
  match v with
  | Bool b => Return b
  | _ => Panic TypeAssertion
  end.

(** *** Keys *)

Definition getTimePointKey (c : circuitBreaker S) (bucketName : string)
           (timestamp : Time) : string :=
  "cb-" +:+ FeatureName c +:+ "-" +:+ WindowDurationStr c +:+ "-"
    +:+ bucketName +:+ "-" +:+ Format200601021504 timestamp.

Definition setTripKey (c : circuitBreaker S) : circuitBreaker S :=
  mkCircuitBreaker (cb_Cache c) (Active c) (Buckets c) (CacheTTL c)
    (ConfigName c) (FeatureName c) (HeadKeys c) (Threshold c)
    ("cb-trip-" +:+ FeatureName c +:+ "-" +:+ WindowDurationStr c)
    (WarningAlertKey c) (WindowDuration c) (WindowDurationStr c)
    (WarningThreshold c).

Definition setWarningAlertKey (c : circuitBreaker S) : circuitBreaker S :=
  mkCircuitBreaker (cb_Cache c) (Active c) (Buckets c) (CacheTTL c)
    (ConfigName c) (FeatureName c) (HeadKeys c) (Threshold c) (TripKey c)
    ("cb-warning_alert-" +:+ FeatureName c +:+ "-" +:+ WindowDurationStr c)
    (WindowDuration c) (WindowDurationStr c) (WarningThreshold c).

Definition setWindowDurationStr (c : circuitBreaker S) : circuitBreaker S :=
  mkCircuitBreaker (cb_Cache c) (Active c) (Buckets c) (CacheTTL c)
    (ConfigName c) (FeatureName c) (HeadKeys c) (Threshold c) (TripKey c)
    (WarningAlertKey c) (WindowDuration c)
    (FindName (DurationString (WindowDuration c))) (WarningThreshold c).

(** *** Construction *)

Definition byDurationDesc (i j : Bucket) : bool :=
  Duration j <? Duration i.

Section Construction.
(** [sort.Slice], which the standard library leaves free to order
    equal elements as it likes. *)
Variable sortSlice :
  (Bucket -> Bucket -> bool) -> list Bucket -> list Bucket.

Definition NewCircuitBreaker (cache : Cache.t S) (buckets : list Bucket)
           (cacheTTL : GoTime.Duration) (featureName : string)
           (windowDuration : GoTime.Duration) : circuitBreaker S :=
  let circuitBreaker :=
    {| cb_Cache := cache;
       Active := true;
       Buckets := buckets;
       CacheTTL := cacheTTL;
       ConfigName := EmptyString;
       FeatureName := featureName;
       HeadKeys := [];
       Threshold := MaxInt;
       TripKey := EmptyString;
       WarningAlertKey := EmptyString;
       WindowDuration := windowDuration;
       WindowDurationStr := EmptyString;
       WarningThreshold := 0 |} in
  let buckets :=
    if (length (Buckets circuitBreaker) =? 0)%nat
    then DefaultBucket else Buckets circuitBreaker in
  let buckets := sortSlice byDurationDesc buckets in
  let circuitBreaker :=
    mkCircuitBreaker cache true buckets cacheTTL EmptyString featureName
      [] MaxInt EmptyString EmptyString windowDuration EmptyString 0 in
  setWarningAlertKey (setTripKey (setWindowDurationStr circuitBreaker)).
End Construction.

(** *** Key generation *)

(** The inner loop of [GenerateKeys] for one bucket; [None] when the
    fuel does not suffice. *)
Fixpoint GenerateKeys_step (fuel : nat) (c : circuitBreaker S)
         (bucket : Bucket) (startTime endTime : Time)
         (result : list string) : option (Time * list string) :=
  let stepped := Add endTime (GoInt.mul (-1) (Duration bucket)) in
  if After stepped startTime || Equal stepped startTime then
    match fuel with
    | O => None
    | Datatypes.S fuel =>
        let endTime := stepped in
        GenerateKeys_step fuel c bucket startTime endTime
          (result ++ [getTimePointKey c (Name bucket) endTime])
    end
  else Some (endTime, result).

(** The loop over [c.Buckets]. *)
Fixpoint GenerateKeys_range (fuel : nat) (c : circuitBreaker S)
         (buckets : list Bucket) (startTime endTime : Time)
         (result : list string) : outcome (list string) :=
  match buckets with
  | [] => Return result
  | bucket :: buckets =>
      match GenerateKeys_step fuel c bucket startTime endTime result with
      | None => Loop
      | Some (endTime, result) =>
          GenerateKeys_range fuel c buckets startTime endTime result
      end
  end.

Definition GenerateKeys (fuel : nat) (c : circuitBreaker S)
           (currentTime : Time) : outcome (list string) :=
  let result := [] in
  let endTime := currentTime in
  let startTime := Add currentTime (GoInt.mul (-1) (WindowDuration c)) in
  match Buckets c with
  | [] => Panic IndexOutOfRange
  | bucket0 :: _ =>
      let endTime := Truncate endTime (Duration bucket0) in
      let startTime := Truncate startTime Minute in
      let result := result ++ [getTimePointKey c (Name bucket0) endTime] in
      GenerateKeys_range fuel c (Buckets c) startTime endTime result
  end.

(** *** Aggregation and threshold checks *)

Definition CalculateWindowValue (fuel : nat) (c : circuitBreaker S)
  : M S Z :=
  if negb (Active c) then mret MaxInt
  else
    currentTime ← timeNowUTC;
    keys ← lift (GenerateKeys fuel c currentTime);
    results ← Cache_GetMulti c keys;
    cacheValues ← lift (assertMapStringInt results);
    let totalValue := 0 in
    mret (map_fold (fun _ v totalValue => GoInt.add totalValue v)
            totalValue cacheValues).

Definition IsExceedingThreshold (fuel : nat) (c : circuitBreaker S)
           (amount : Z) : M S bool :=
  if negb (Active c) then mret false
  else
    value ← CalculateWindowValue fuel c;
    mret (Threshold c <=? GoInt.add value amount).

(** Modelled from the spec: [IsExceedingWarningThreshold], called by the
    tests and the README and absent from [src/]; the spec describes it as
    [IsExceedingThreshold] against [warningThreshold]. *)
Definition IsExceedingWarningThreshold (fuel : nat) (c : circuitBreaker S)
           (amount : Z) : M S bool :=
  if negb (Active c) then mret false
  else
    value ← CalculateWindowValue fuel c;
    mret (WarningThreshold c <=? GoInt.add value amount).

(** *** Flags *)

Definition getBoolCache (c : circuitBreaker S) (cacheKey : string)
  : M S (bool * option error) :=
  if negb (Active c) then mret (false, None)
  else
    '(object, err) ← Cache_Get c cacheKey;
    match err with
    | Some _ => mret (false, Some ErrCacheMiss)
    | None => b ← lift (assertBool object); mret (b, None)
    end.

Definition GetTrip (c : circuitBreaker S) : M S (bool * option error) :=
  getBoolCache c (TripKey c).

Definition GetTripWarning (c : circuitBreaker S)
  : M S (bool * option error) :=
  getBoolCache c (WarningAlertKey c).

Definition GetWindowDurationStr (c : circuitBreaker S) : string :=
  WindowDurationStr c.

Definition SetActive (c : circuitBreaker S) (active : bool)
  : circuitBreaker S :=
  mkCircuitBreaker (cb_Cache c) active (Buckets c) (CacheTTL c)
    (ConfigName c) (FeatureName c) (HeadKeys c) (Threshold c) (TripKey c)
    (WarningAlertKey c) (WindowDuration c) (WindowDurationStr c)
    (WarningThreshold c).

Definition SetThreshold (c : circuitBreaker S) (threshold : Z)
  : circuitBreaker S :=
  mkCircuitBreaker (cb_Cache c) (Active c) (Buckets c) (CacheTTL c)
    (ConfigName c) (FeatureName c) (HeadKeys c) threshold (TripKey c)
    (WarningAlertKey c) (WindowDuration c) (WindowDurationStr c)
    (WarningThreshold c).

(** *** Writes *)

(** The loop of [UpdateLatestBucketsValue] over [c.Buckets]. *)
Fixpoint UpdateLatestBucketsValue_range (c : circuitBreaker S)
         (now : Time) (amount : Z) (buckets : list Bucket)
  : M S (option error) :=
  match buckets with
  | [] => mret None
  | bucket :: buckets =>
      let timestamp := Truncate now (Duration bucket) in
      '(_, err) ← Cache_IncrementInt c
                    (getTimePointKey c (Name bucket) timestamp) amount;
      match err with
      | Some e => mret (Some e)
      | None => UpdateLatestBucketsValue_range c now amount buckets
      end
  end.

Definition UpdateLatestBucketsValue (c : circuitBreaker S) (amount : Z)
  : M S (option error) :=
  if negb (Active c) then mret None
  else
    now ← timeNowUTC;
    UpdateLatestBucketsValue_range c now amount (Buckets c).

Definition updateBoolCache (c : circuitBreaker S) (isTripped : bool)
           (cacheKey : string) (expiration : GoTime.Duration) : M S unit :=
  if negb (Active c) then mret tt
  else Cache_Set c cacheKey (Bool isTripped) (CacheTTL c).

Definition UpdateTrip (c : circuitBreaker S) (isTripped : bool) : M S unit :=
  updateBoolCache c isTripped (TripKey c) 0.

Definition UpdateTripWarning (c : circuitBreaker S) (isTripped : bool)
  : M S unit :=
  updateBoolCache c isTripped (WarningAlertKey c) WarningAlertKeyExpiration.

End Engine.

(** ** [sort.Slice] on short slices

    For slices of at most twelve elements [sort.Slice] is an insertion
    sort: each element in turn moves left past the elements it is less
    than.  [insertBack] works on the reversed sorted prefix. *)

Section InsertionSort.
Context {A : Type}.
Variable less : A -> A -> bool.

Fixpoint insertBack (x : A) (revPrefix : list A) : list A :=
  match revPrefix with
  | [] => [x]
  | y :: r => if less x y then y :: insertBack x r else x :: y :: r
  end.

Definition insertionSort (data : list A) : list A :=
  rev (fold_left (fun revPrefix x => insertBack x revPrefix) data []).
End InsertionSort.

(** ** Fixtures of [circuit_breaker_test.go] *)

Module Fixture.

(** A store that holds nothing and fails nothing. *)
Definition emptyCache : Cache.t unit :=
  Cache.mk (fun _ s => ((Nil, Some ErrCacheMiss), s))
           (fun _ _ _ s => s)
           (fun _ s => (MapStringInt ∅, s))
           (fun _ val s => ((val, None), s)).

Definition fourTiers : list Bucket :=
  [ NewBucket (GoInt.mul 4 Hour); NewBucket (GoInt.mul 1 Hour);
    NewBucket (GoInt.mul 5 Minute); NewBucket (GoInt.mul 1 Minute) ].

(** The breaker of the case "GenerateKeys success". *)
Definition breaker24h : circuitBreaker unit :=
  NewCircuitBreaker insertionSort emptyCache fourTiers
    (GoInt.mul 24 Hour) "test" (GoInt.mul 24 Hour).

Definition may12_1012 : Time := Date 2023 5 12 10 12 0 0.

Definition expectedKeys : list string :=
  [ "cb-test-24h-4h-202305120800"; "cb-test-24h-4h-202305120400";
    "cb-test-24h-4h-202305120000"; "cb-test-24h-4h-202305112000";
    "cb-test-24h-4h-202305111600"; "cb-test-24h-4h-202305111200";
    "cb-test-24h-1h-202305111100"; "cb-test-24h-5m-202305111055";
    "cb-test-24h-5m-202305111050"; "cb-test-24h-5m-202305111045";
    "cb-test-24h-5m-202305111040"; "cb-test-24h-5m-202305111035";
    "cb-test-24h-5m-202305111030"; "cb-test-24h-5m-202305111025";
    "cb-test-24h-5m-202305111020"; "cb-test-24h-5m-202305111015";
    "cb-test-24h-1m-202305111014"; "cb-test-24h-1m-202305111013";
    "cb-test-24h-1m-202305111012" ].

(** The breaker of the case "Given the window duration and the bucket
    duration are equal". *)
Definition breakerDay : circuitBreaker unit :=
  NewCircuitBreaker insertionSort emptyCache [NewBucket (GoInt.mul 24 Hour)]
    (GoInt.mul 24 Hour) "test" (GoInt.mul 24 Hour).

Definition may12_0000 : Time := Date 2023 5 12 0 0 0 0.

(** A breaker with the single four-hour tier of the cases of
    [TestCircuitBreaker_UpdateLatestBucketsValue]. *)
Definition breaker4h : circuitBreaker unit :=
  NewCircuitBreaker insertionSort emptyCache [NewBucket (GoInt.mul 4 Hour)]
    (GoInt.mul 24 Hour) "test" (GoInt.mul 24 Hour).

(** The mocked store of the case "CalculateWindowValue success":
    [GetMulti] answers with a map from string to int. *)
Definition mockCache (resMap : gmap string Z) : Cache.t unit :=
  Cache.mk (fun _ s => ((Nil, Some ErrCacheMiss), s))
           (fun _ _ _ s => s)
           (fun _ s => (MapStringInt resMap, s))
           (fun _ val s => ((val, None), s)).

Definition resMap : gmap string Z :=
  <["cb-test-4h-202305100800" := 50000]>
    (<["cb-test-4h-202305101200" := 30000]> ∅).

(** The breaker of the cases of [TestCircuitBreaker_CalculateWindowValue],
    with the threshold of the test request. *)
Definition breakerMock : circuitBreaker unit :=
  SetThreshold
    (NewCircuitBreaker insertionSort (mockCache resMap) fourTiers
       (GoInt.mul 24 Hour) "test" (GoInt.mul 24 Hour))
    100000.

(** An in-memory store in the manner of go-cache, expiry left out. *)
Definition memAdapter : Adapter.t (gmap string any) :=
  Adapter.mk
    (fun key s => delete key s)
    (fun key s =>
       match s !! key with
       | Some v => ((v, true), s)
       | None => ((Nil, false), s)
       end)
    (fun key n s =>
       match s !! key with
       | Some (Int v) => ((GoInt.add v n, None), <[key := Int (GoInt.add v n)]> s)
       | Some _ => ((0, Some (StoreError "not an int")), s)
       | None => ((0, Some (StoreError "not found")), s)
       end)
    (fun key value _ s => <[key := value]> s).

(** The breaker of the cases of [TestCircuitBreaker_UpdateTrip], over the
    in-memory store behind the [cache] of [cache.go]. *)
Definition breakerMem : circuitBreaker (gmap string any) :=
  NewCircuitBreaker insertionSort
    (cache.NewCache memAdapter (GoInt.mul 5 Minute))
    [NewBucket (GoInt.mul 4 Hour)]
    (GoInt.mul 24 Hour) "test_window" (GoInt.mul 168 Hour).

(** The same over the [cache] that holds the go-cache store itself. *)
Definition breakerGoCache : circuitBreaker (gmap string any) :=
  NewCircuitBreaker insertionSort
    (gocache.NewCache memAdapter (GoInt.mul 5 Minute))
    [NewBucket (GoInt.mul 4 Hour)]
    (GoInt.mul 24 Hour) "test_window" (GoInt.mul 168 Hour).

(** The four tiers over the in-memory store, and a store that holds the
    4h counter of 2023-05-12T08:00 and no other. *)
Definition breakerMemTiers : circuitBreaker (gmap string any) :=
  NewCircuitBreaker insertionSort
    (cache.NewCache memAdapter (GoInt.mul 5 Minute))
    fourTiers (GoInt.mul 24 Hour) "test" (GoInt.mul 24 Hour).

Definition storeOneTier : gmap string any :=
  <["cb-test-24h-4h-202305120800" := Int 5]> ∅.

Definition world0 {S} (s : S) (now : Time) : World S :=
  {| store := s; clock := now; calls := [] |}.

End Fixture.

(** ** The (bucket, instant) pairs behind the keys

    [keyPoints] is [GenerateKeys] with the rendering of the keys left
    out: the same loops, emitting the bucket and the instant that
    [getTimePointKey] would print. *)

Definition Point : Type := (Bucket * Time)%type.

Fixpoint keyPoints_step (fuel : nat) (bucket : Bucket)
         (startTime endTime : Time) (result : list Point)
  : option (Time * list Point) :=
  let stepped := Add endTime (GoInt.mul (-1) (Duration bucket)) in
  if After stepped startTime || Equal stepped startTime then
    match fuel with
    | O => None
    | Datatypes.S fuel =>
        keyPoints_step fuel bucket startTime stepped
          (result ++ [(bucket, stepped)])
    end
  else Some (endTime, result).

Fixpoint keyPoints_range (fuel : nat) (buckets : list Bucket)
         (startTime endTime : Time) (result : list Point)
  : outcome (list Point) :=
  match buckets with
  | [] => Return result
  | bucket :: buckets =>
      match keyPoints_step fuel bucket startTime endTime result with
      | None => Loop
      | Some (endTime, result) =>
          keyPoints_range fuel buckets startTime endTime result
      end
  end.

Definition keyPoints (fuel : nat) (buckets : list Bucket)
           (windowDuration : GoTime.Duration) (currentTime : Time)
  : outcome (list Point) :=
  let startTime := Add currentTime (GoInt.mul (-1) windowDuration) in
  match buckets with
  | [] => Panic IndexOutOfRange
  | bucket0 :: _ =>
      let endTime := Truncate currentTime (Duration bucket0) in
      let startTime := Truncate startTime Minute in
      keyPoints_range fuel buckets startTime endTime [(bucket0, endTime)]
  end.

Definition keyOf {S} (c : circuitBreaker S) (p : Point) : string :=
  getTimePointKey c (Name p.1) p.2.

Definition outcome_map {A B} (f : A -> B) (r : outcome A) : outcome B :=
  match r with
  | Return a => Return (f a)
  | Panic p => Panic p
  | Loop => Loop
  end.

(** The interval of instants a key stands for: the bucket that starts at
    the key's instant. *)
Definition covers (p : Point) (x : Time) : Prop :=
  p.2 <= x < p.2 + Duration p.1.

(** A key that [UpdateLatestBucketsValue] can write: its instant is a
    multiple of its bucket's duration. *)
Definition aligned (p : Point) : Prop := p.2 mod Duration p.1 = 0.

(** [chain e ks e']: the keys [ks] are back-to-back buckets that lead from
    the instant [e] down to the instant [e']. *)
Inductive chain : Time -> list Point -> Time -> Prop :=
| chain_nil e : chain e [] e
| chain_cons e b ks e' :
    0 < Duration b ->
    chain (e - Duration b) ks e' ->
    chain e ((b, e - Duration b) :: ks) e'.

(** Every duration divides the one before it, starting from [d]. *)
Fixpoint divChain (d : Z) (buckets : list Bucket) : Prop :=
  match buckets with
  | [] => True
  | b :: buckets => d mod Duration b = 0 /\ divChain (Duration b) buckets
  end.

(** The duration of the last tier; [d] when there is none. *)
Fixpoint finest (d : Z) (buckets : list Bucket) : Z :=
  match buckets with
  | [] => d
  | b :: buckets => finest (Duration b) buckets
  end.

Definition sumDurations (ks : list Point) : Z :=
  fold_right (fun p acc => Duration p.1 + acc) 0 ks.

(** The number of finest-tier buckets inside the bucket of a key. *)
Definition ticks (f : Z) (p : Point) : Z := Duration p.1 / f.

Definition sumTicks (f : Z) (ks : list Point) : Z :=
  fold_right (fun p acc => ticks f p + acc) 0 ks.

Definition positive64 (d : Z) : Prop := 0 < d <= MaxInt.

(** The keys one tier contributes: [n] steps of the bucket's duration
    down from [e]. *)
Fixpoint stepPoints (bucket : Bucket) (e : Time) (n : nat) : list Point :=
  match n with
  | O => []
  | Datatypes.S n =>
      (bucket, e - Duration bucket)
        :: stepPoints bucket (e - Duration bucket) n
  end.

(** The number of whole buckets of duration [d] between [startTime] and
    [e]. *)
Definition stepCount (d : Z) (startTime e : Time) : nat :=
  Z.to_nat ((e - startTime) / d).

(** The keys all tiers contribute below [e], the instant the walk ends on,
    and the fuel the longest tier takes. *)
Fixpoint tierWalk (buckets : list Bucket) (startTime e : Time)
  : list Point * Time * nat :=
  match buckets with
  | [] => ([], e, O)
  | bucket :: buckets =>
      let n := stepCount (Duration bucket) startTime e in
      let e1 := e - Z.of_nat n * Duration bucket in
      let '(ks, e', fuel) := tierWalk buckets startTime e1 in
      (stepPoints bucket e n ++ ks, e', Nat.max n fuel)
  end.


(** ** The methods of the [CircuitBreaker] interface as operations

    [runOp] calls the method an operation names on the receiver and the
    world it is given, and hands back the receiver and the world the call
    leaves behind; what the call returns is dropped.  The two setters
    assign to a field of the receiver; the other methods reach the world
    only. *)

Inductive Op : Type :=
| OpCalculateWindowValue
| OpGenerateKeys (currentTime : Time)
| OpGetTrip
| OpGetTripWarning
| OpGetWindowDurationStr
| OpIsExceedingThreshold (amount : Z)
| OpSetActive (active : bool)
| OpSetThreshold (threshold : Z)
| OpUpdateLatestBucketsValue (amount : Z)
| OpUpdateTrip (isTripped : bool)
| OpUpdateTripWarning (isTripped : bool).

Definition runOp {S} (fuel : nat) (cw : circuitBreaker S * World S)
           (op : Op) : circuitBreaker S * World S :=
  let '(c, w) := cw in
  match op with
  | OpCalculateWindowValue => (c, (CalculateWindowValue fuel c w).2)
  | OpGenerateKeys currentTime =>
      match GenerateKeys fuel c currentTime with _ => (c, w) end
  | OpGetTrip => (c, (GetTrip c w).2)
  | OpGetTripWarning => (c, (GetTripWarning c w).2)
  | OpGetWindowDurationStr =>
      match GetWindowDurationStr c with _ => (c, w) end
  | OpIsExceedingThreshold amount =>
      (c, (IsExceedingThreshold fuel c amount w).2)
  | OpSetActive active => (SetActive c active, w)
  | OpSetThreshold threshold => (SetThreshold c threshold, w)
  | OpUpdateLatestBucketsValue amount =>
      (c, (UpdateLatestBucketsValue c amount w).2)
  | OpUpdateTrip isTripped => (c, (UpdateTrip c isTripped w).2)
  | OpUpdateTripWarning isTripped => (c, (UpdateTripWarning c isTripped w).2)
  end.

Definition runOps {S} (fuel : nat) (cw : circuitBreaker S * World S)
           (ops : list Op) : circuitBreaker S * World S :=
  fold_left (runOp fuel) ops cw.

(** The argument of the last [SetActive] among [ops], [active] when there
    is none; likewise for [SetThreshold]. *)
Definition lastActive (active : bool) (ops : list Op) : bool :=
  fold_left (fun a op => match op with OpSetActive a' => a' | _ => a end)
            ops active.

Definition lastThreshold (threshold : Z) (ops : list Op) : Z :=
  fold_left (fun t op => match op with OpSetThreshold t' => t' | _ => t end)
            ops threshold.

(** Descending order of duration, as [sort.Slice] leaves it under
    [byDurationDesc]: no element is less than one before it. *)
Definition descending (buckets : list Bucket) : Prop :=
  StronglySorted (fun i j => byDurationDesc j i = false) buckets.

Definition strictlyDescending (buckets : list Bucket) : Prop :=
  StronglySorted (fun i j => Duration j < Duration i) buckets.

(** The keys [pts] leave no instant of the window
    [now - windowDuration, now] outside their buckets. *)
Definition tilesWindow (windowDuration : GoTime.Duration) (now : Time)
           (pts : list Point) : Prop :=
  forall x, now - windowDuration <= x <= now ->
            exists p, p ∈ pts /\ covers p x.

(** The same, with every instant of the window in the bucket of exactly
    one key. *)
Definition tilesWindowOnce (windowDuration : GoTime.Duration) (now : Time)
           (pts : list Point) : Prop :=
  forall x, now - windowDuration <= x <= now ->
            exists p, p ∈ pts /\ covers p x
                      /\ forall q, q ∈ pts -> covers q x -> q = p.

(** ** Reference points for the writes *)

(** The counter keys of the instant [now], one per tier, in tier order. *)
Definition tierKeys {S} (c : circuitBreaker S) (now : Time) : list string :=
  map (fun bucket =>
         getTimePointKey c (Name bucket) (Truncate now (Duration bucket)))
      (Buckets c).

(** The world after the increments of [keys] by [amount], issued in
    order. *)
Definition incremented {S} (c : circuitBreaker S) (amount : Z)
           (keys : list string) (w : World S) : World S :=
  fold_left (fun w key => (Cache_IncrementInt c key amount w).2) keys w.

(** The error the store answers the increment of [key] with in the world
    [w]. *)
Definition incrementError {S} (c : circuitBreaker S) (amount : Z)
           (key : string) (w : World S) : option error :=
  (Cache.IncrementInt (cb_Cache c) key amount (store w)).1.2.

(** The mathematical sum of the counters of a [GetMulti] answer. *)
Definition sumValues (m : gmap string Z) : Z :=
  map_fold (fun _ v acc => v + acc) 0 m.

(** What [GetMulti] of the first [cache] keeps of a value read: nothing
    of a nil value, the value otherwise. *)
Definition present (object : any) : option any :=
  match object with
  | Nil => None
  | _ => Some object
  end.

Fixpoint allDigits (s : string) : bool :=
  match s with
  | EmptyString => true
  | String a r => isDigit a && allDigits r
  end.

(** * Properties *)

(** ** Machine integers *)

Lemma wrap64_in_range z : in_range (wrap64 z).
Proof.
  unfold in_range, wrap64, MinInt, MaxInt.
  pose proof (Z.mod_pos_bound (z + 2 ^ 63) (2 ^ 64) ltac:(lia)). lia.
Qed.

Lemma wrap64_id z : in_range z -> wrap64 z = z.
Proof.
  unfold in_range, wrap64, MinInt, MaxInt. intros H.
  rewrite Z.mod_small by lia. lia.
Qed.

Lemma int_add_comm x y : add x y = add y x.
Proof. unfold add. f_equal. lia. Qed.

Lemma wrap64_add_l x y : wrap64 (wrap64 x + y) = wrap64 (x + y).
Proof.
  unfold wrap64. f_equal.
  replace ((x + 2 ^ 63) mod 2 ^ 64 - 2 ^ 63 + y + 2 ^ 63)
    with ((x + 2 ^ 63) mod 2 ^ 64 + y) by lia.
  rewrite Zplus_mod_idemp_l. f_equal. lia.
Qed.

Lemma int_add_assoc x y z : add x (add y z) = add (add x y) z.
Proof.
  unfold add.
  rewrite (Z.add_comm x (wrap64 (y + z))), !wrap64_add_l.
  f_equal. lia.
Qed.

Lemma int_neg d : MinInt < d <= MaxInt -> mul (-1) d = - d.
Proof.
  unfold mul, MinInt, MaxInt. intros H.
  apply wrap64_id. unfold in_range, MinInt, MaxInt. lia.
Qed.

(** ** Key generation: the rendered keys and the points agree *)

Section Rendering.
Context {S : Type} (c : circuitBreaker S).

Lemma GenerateKeys_step_points fuel bucket startTime :
  forall endTime pts,
    GenerateKeys_step fuel c bucket startTime endTime (map (keyOf c) pts)
    = option_map (fun r : Time * list Point => (r.1, map (keyOf c) r.2))
        (keyPoints_step fuel bucket startTime endTime pts).
Proof.
  induction fuel as [|fuel IH]; intros endTime pts; simpl.
  - destruct (_ || _); reflexivity.
  - destruct (_ || _); [|reflexivity].
    rewrite <- IH, map_app. reflexivity.
Qed.

Lemma GenerateKeys_range_points fuel startTime :
  forall buckets endTime pts,
    GenerateKeys_range fuel c buckets startTime endTime (map (keyOf c) pts)
    = outcome_map (map (keyOf c))
        (keyPoints_range fuel buckets startTime endTime pts).
Proof.
  induction buckets as [|b bs IH]; intros endTime pts; simpl; [reflexivity|].
  rewrite GenerateKeys_step_points.
  destruct (keyPoints_step fuel b startTime endTime pts) as [[e' r]|];
    simpl; [apply IH | reflexivity].
Qed.

Lemma GenerateKeys_points fuel currentTime :
  GenerateKeys fuel c currentTime
  = outcome_map (map (keyOf c))
      (keyPoints fuel (Buckets c) (WindowDuration c) currentTime).
Proof.
  unfold GenerateKeys, keyPoints.
  destruct (Buckets c) as [|b0 bs] eqn:E; [reflexivity|].
  apply (GenerateKeys_range_points fuel _ (b0 :: bs) _ [(b0, _)]).
Qed.
End Rendering.

(** ** Key generation: fuel *)

Lemma keyPoints_step_mono bucket startTime fuel fuel' :
  (fuel <= fuel')%nat ->
  forall endTime pts r,
    keyPoints_step fuel bucket startTime endTime pts = Some r ->
    keyPoints_step fuel' bucket startTime endTime pts = Some r.
Proof.
  revert fuel'. induction fuel as [|fuel IH]; intros fuel' Hle e pts r.
  - simpl. destruct fuel'; simpl; destruct (_ || _); congruence.
  - destruct fuel' as [|fuel']; [lia|]. simpl.
    destruct (_ || _); [|congruence]. apply IH. lia.
Qed.

Lemma keyPoints_range_mono startTime fuel fuel' :
  (fuel <= fuel')%nat ->
  forall buckets endTime pts r,
    keyPoints_range fuel buckets startTime endTime pts = Return r ->
    keyPoints_range fuel' buckets startTime endTime pts = Return r.
Proof.
  intros Hle. induction buckets as [|b bs IH]; intros e pts r; simpl.
  - congruence.
  - destruct (keyPoints_step fuel b startTime e pts) as [[e1 r1]|] eqn:E;
      [|congruence].
    rewrite (keyPoints_step_mono _ _ _ _ Hle _ _ _ E). apply IH.
Qed.

Lemma keyPoints_mono fuel fuel' buckets w t r :
  (fuel <= fuel')%nat ->
  keyPoints fuel buckets w t = Return r ->
  keyPoints fuel' buckets w t = Return r.
Proof.
  intros Hle. unfold keyPoints. destruct buckets; [congruence|].
  apply keyPoints_range_mono, Hle.
Qed.

Lemma GenerateKeys_mono {S} (c : circuitBreaker S) fuel fuel' t r :
  (fuel <= fuel')%nat ->
  GenerateKeys fuel c t = Return r ->
  GenerateKeys fuel' c t = Return r.
Proof.
  intros Hle. rewrite !GenerateKeys_points.
  destruct (keyPoints fuel _ _ _) as [pts| |] eqn:E; simpl; try congruence.
  rewrite (keyPoints_mono _ _ _ _ _ _ Hle E). auto.
Qed.

(** ** Key generation: what the loops emit *)

Lemma keyPoints_step_run bucket startTime :
  positive64 (Duration bucket) ->
  forall n endTime pts fuel,
    n = stepCount (Duration bucket) startTime endTime ->
    (n <= fuel)%nat ->
    keyPoints_step fuel bucket startTime endTime pts
    = Some (endTime - Z.of_nat n * Duration bucket,
            pts ++ stepPoints bucket endTime n).
Proof.
  intros [Hpos Hmax]. unfold stepCount.
  assert (Hneg : GoInt.mul (-1) (Duration bucket) = - Duration bucket).
  { apply int_neg. unfold MinInt, MaxInt in *. lia. }
  induction n as [|n IH]; intros e pts fuel Hn Hfuel.
  - assert (e - startTime < Duration bucket).
    { destruct (Z_lt_ge_dec (e - startTime) (Duration bucket)); [done|].
      assert (1 <= (e - startTime) / Duration bucket)
        by (apply Z.div_le_lower_bound; lia). lia. }
    assert (Hc : After (Add e (- Duration bucket)) startTime
                 || Equal (Add e (- Duration bucket)) startTime = false).
    { unfold After, Add, Equal. apply orb_false_intro; lia. }
    destruct fuel; simpl; rewrite Hneg, Hc, app_nil_r; f_equal; f_equal; lia.
  - assert (Hge : Duration bucket <= e - startTime).
    { destruct (Z_lt_ge_dec (e - startTime) (Duration bucket)); [|lia].
      destruct (Z_lt_ge_dec (e - startTime) 0).
      - assert ((e - startTime) / Duration bucket < 0)
          by (apply Z.div_lt_upper_bound; lia). lia.
      - rewrite Z.div_small in Hn by lia. discriminate. }
    assert (Hc : After (Add e (- Duration bucket)) startTime
                 || Equal (Add e (- Duration bucket)) startTime = true).
    { unfold After, Add, Equal.
      destruct (Z.eq_dec (e + - Duration bucket) startTime) as [->|];
        [rewrite Z.eqb_refl; apply orb_true_r|].
      apply orb_true_intro; left. lia. }
    destruct fuel as [|fuel]; [lia|]. simpl. rewrite Hneg, Hc.
    unfold Add. replace (e + - Duration bucket) with (e - Duration bucket) by lia.
    rewrite (IH (e - Duration bucket)).
    + rewrite <- app_assoc. simpl. f_equal. f_equal. lia.
    + replace (e - Duration bucket - startTime)
        with ((e - startTime) + (-1) * Duration bucket) by lia.
      rewrite Z.div_add by lia. lia.
    + lia.
Qed.

Lemma keyPoints_range_run startTime :
  forall buckets endTime pts fuel,
    Forall (fun b => positive64 (Duration b)) buckets ->
    ((tierWalk buckets startTime endTime).2 <= fuel)%nat ->
    keyPoints_range fuel buckets startTime endTime pts
    = Return (pts ++ (tierWalk buckets startTime endTime).1.1).
Proof.
  induction buckets as [|b bs IH]; intros e pts fuel Hpos Hfuel; simpl.
  - by rewrite app_nil_r.
  - inversion Hpos as [|? ? Hb Hbs]; subst. simpl in Hfuel.
    destruct (tierWalk bs startTime _) as [[ks e'] f] eqn:E. simpl in *.
    rewrite (keyPoints_step_run b startTime Hb _ e pts fuel eq_refl) by lia.
    rewrite IH by (rewrite ?E; simpl; auto; lia).
    rewrite E. simpl. by rewrite app_assoc.
Qed.

(** ** Key generation: chains of buckets *)

Lemma mod0_divide d a : 0 < d -> a mod d = 0 <-> (d | a).
Proof. intros Hd. apply Z.mod_divide. lia. Qed.

Lemma chain_app e ks1 m ks2 e' :
  chain e ks1 m -> chain m ks2 e' -> chain e (ks1 ++ ks2) e'.
Proof.
  induction 1 as [|e b ks m Hb _ IH]; intros H2; simpl; [done|].
  constructor; auto.
Qed.

Lemma chain_le e ks e' : chain e ks e' -> e' <= e.
Proof. induction 1; lia. Qed.

Lemma chain_sum e ks e' : chain e ks e' -> sumDurations ks = e - e'.
Proof. induction 1 as [|e b ks e' Hb _ IH]; simpl in *; lia. Qed.

Lemma chain_inside e ks e' p x :
  chain e ks e' -> p ∈ ks -> covers p x -> e' <= x < e.
Proof.
  induction 1 as [|e b ks e' Hb Hc IH]; intros Hin Hcov.
  - by apply elem_of_nil in Hin.
  - apply chain_le in Hc as Hle.
    apply elem_of_cons in Hin as [->|Hin].
    + unfold covers in Hcov. simpl in Hcov. lia.
    + specialize (IH Hin Hcov). lia.
Qed.

Lemma chain_cover e ks e' x :
  chain e ks e' -> e' <= x < e ->
  exists p, p ∈ ks /\ covers p x /\ forall q, q ∈ ks -> covers q x -> q = p.
Proof.
  induction 1 as [|e b ks e' Hb Hc IH]; intros Hx; [lia|].
  destruct (Z_lt_ge_dec x (e - Duration b)) as [Hlt|Hge].
  - destruct IH as (p & Hin & Hcov & Huniq); [lia|].
    exists p. split; [by apply elem_of_cons; right|]. split; [done|].
    intros q Hq Hcq. apply elem_of_cons in Hq as [->|Hq]; [|by apply Huniq].
    unfold covers in Hcq. simpl in Hcq. lia.
  - exists (b, e - Duration b). split; [by apply elem_of_cons; left|].
    split; [unfold covers; simpl; lia|].
    intros q Hq Hcq. apply elem_of_cons in Hq as [->|Hq]; [done|].
    pose proof (chain_inside _ _ _ _ _ Hc Hq Hcq). lia.
Qed.

Lemma chain_stepPoints b n :
  0 < Duration b ->
  forall e, chain e (stepPoints b e n) (e - Z.of_nat n * Duration b).
Proof.
  intros Hb. induction n as [|n IH]; intros e; simpl stepPoints.
  - replace (e - Z.of_nat 0 * Duration b) with e by lia. constructor.
  - constructor; [done|].
    replace (e - Z.of_nat (Datatypes.S n) * Duration b)
      with (e - Duration b - Z.of_nat n * Duration b) by lia.
    apply IH.
Qed.

Lemma stepPoints_bucket b n :
  forall e, Forall (fun p : Point => p.1 = b) (stepPoints b e n).
Proof. induction n; intros e; simpl; constructor; auto. Qed.

(** Where one tier stops. *)
Lemma stepCount_stop d startTime e :
  0 < d -> startTime <= e ->
  let e1 := e - Z.of_nat (stepCount d startTime e) * d in
  startTime <= e1 < startTime + d.
Proof.
  intros Hd Hle. unfold stepCount.
  rewrite Z2Nat.id by (apply Z.div_pos; lia).
  pose proof (Z.mul_div_le (e - startTime) d Hd).
  pose proof (Z.mul_succ_div_gt (e - startTime) d Hd).
  simpl. lia.
Qed.

Lemma stepCount_below d startTime e :
  0 < d -> e < startTime -> stepCount d startTime e = O.
Proof.
  intros Hd Hlt. unfold stepCount.
  assert ((e - startTime) / d < 0) by (apply Z.div_lt_upper_bound; lia).
  lia.
Qed.

Lemma tierWalk_chain startTime :
  forall buckets e,
    Forall (fun b => positive64 (Duration b)) buckets ->
    chain e (tierWalk buckets startTime e).1.1
          (tierWalk buckets startTime e).1.2.
Proof.
  induction buckets as [|b bs IH]; intros e Hpos; simpl; [constructor|].
  inversion Hpos as [|? ? [Hb _] Hbs]; subst.
  specialize (IH (e - Z.of_nat (stepCount (Duration b) startTime e)
                      * Duration b) Hbs).
  destruct (tierWalk bs startTime _) as [[ks e'] f]. simpl in *.
  eapply chain_app; [apply chain_stepPoints; done | done].
Qed.

Lemma tierWalk_below startTime :
  forall buckets e,
    Forall (fun b => positive64 (Duration b)) buckets ->
    e < startTime ->
    (tierWalk buckets startTime e).1 = ([], e).
Proof.
  induction buckets as [|b bs IH]; intros e Hpos Hlt; simpl; [done|].
  inversion Hpos as [|? ? [Hb _] Hbs]; subst.
  rewrite stepCount_below by done.
  replace (e - Z.of_nat 0 * Duration b) with e by lia.
  specialize (IH e Hbs Hlt).
  destruct (tierWalk bs startTime e) as [[ks e'] f]. simpl in *.
  by inversion IH.
Qed.

Lemma tierWalk_stop startTime :
  forall buckets d e,
    Forall (fun b => positive64 (Duration b)) buckets ->
    0 < d -> startTime <= e < startTime + d ->
    startTime <= (tierWalk buckets startTime e).1.2
              < startTime + finest d buckets.
Proof.
  induction buckets as [|b bs IH]; intros d e Hpos Hd He; simpl.
  - lia.
  - inversion Hpos as [|? ? [Hb Hbmax] Hbs]; subst.
    pose proof (stepCount_stop (Duration b) startTime e Hb ltac:(lia)) as H1.
    simpl in H1.
    specialize (IH (Duration b) _ Hbs Hb H1).
    destruct (tierWalk bs startTime _) as [[ks e'] f]. simpl in *. lia.
Qed.

Lemma divChain_finest :
  forall buckets d,
    Forall (fun b => positive64 (Duration b)) buckets ->
    0 < d -> divChain d buckets ->
    0 < finest d buckets /\ (finest d buckets | d)
    /\ Forall (fun b => (finest d buckets | Duration b)) buckets.
Proof.
  induction buckets as [|b bs IH]; intros d Hpos Hd Hdiv.
  - simpl. split; [done|]. split; [reflexivity | constructor].
  - inversion Hpos as [|? ? [Hb Hbmax] Hbs]; subst. destruct Hdiv as [Hbd Hdiv].
    destruct (IH (Duration b) Hbs Hb Hdiv) as (Hf & Hfd & Hall).
    simpl. split; [done|].
    apply mod0_divide in Hbd; [|done].
    split; [by etrans | constructor; done].
Qed.

Lemma stepPoints_aligned b n :
  0 < Duration b ->
  forall e, (Duration b | e) -> Forall aligned (stepPoints b e n).
Proof.
  intros Hb. induction n as [|n IH]; intros e He; simpl; constructor.
  - unfold aligned. simpl. apply mod0_divide; [done|].
    apply Z.divide_sub_r; [done | reflexivity].
  - apply IH. apply Z.divide_sub_r; [done | reflexivity].
Qed.

Lemma tierWalk_aligned startTime :
  forall buckets d e,
    Forall (fun b => positive64 (Duration b)) buckets ->
    0 < d -> (d | e) -> divChain d buckets ->
    Forall aligned (tierWalk buckets startTime e).1.1
    /\ (finest d buckets | (tierWalk buckets startTime e).1.2).
Proof.
  induction buckets as [|b bs IH]; intros d e Hpos Hd He Hdiv; simpl.
  - split; [constructor | done].
  - inversion Hpos as [|? ? [Hb Hbmax] Hbs]; subst. destruct Hdiv as [Hbd Hdiv].
    apply mod0_divide in Hbd; [|done].
    assert (Hbe : (Duration b | e)) by (by etrans).
    set (e1 := e - Z.of_nat (stepCount (Duration b) startTime e) * Duration b).
    assert (He1 : (Duration b | e1)).
    { apply Z.divide_sub_r; [done | apply Z.divide_factor_r]. }
    destruct (IH (Duration b) e1 Hbs Hb He1 Hdiv) as [Hal Hfin].
    destruct (tierWalk bs startTime e1) as [[ks e'] f]. simpl in *.
    split.
    + apply Forall_app. split; [by apply stepPoints_aligned | done].
    + done.
Qed.

Lemma tierWalk_buckets startTime :
  forall buckets e,
    Forall (fun p : Point => p.1 ∈ buckets)
           (tierWalk buckets startTime e).1.1.
Proof.
  induction buckets as [|b bs IH]; intros e; simpl; [constructor|].
  specialize (IH (e - Z.of_nat (stepCount (Duration b) startTime e)
                      * Duration b)).
  destruct (tierWalk bs startTime _) as [[ks e'] f]. simpl in *.
  apply Forall_app. split.
  - eapply Forall_impl; [apply stepPoints_bucket|].
    intros p ->. simpl. by apply elem_of_cons; left.
  - eapply Forall_impl; [exact IH|]. intros p Hp. simpl in *.
    by apply elem_of_cons; right.
Qed.

Lemma sumTicks_sumDurations f ks :
  0 < f -> Forall (fun p : Point => (f | Duration p.1)) ks ->
  sumTicks f ks * f = sumDurations ks.
Proof.
  intros Hf. induction 1 as [|p ks [k Hk] _ IH]; simpl; [done|].
  unfold ticks. rewrite Hk, Z.div_mul by lia. lia.
Qed.

(** ** Sorting *)

Lemma byDurationDesc_false i j :
  byDurationDesc j i = false <-> Duration j <= Duration i.
Proof. unfold byDurationDesc. rewrite Z.ltb_ge. tauto. Qed.

Lemma descending_durations l :
  descending l -> StronglySorted (fun i j => Duration j <= Duration i) l.
Proof.
  unfold descending. induction 1 as [|x l _ IH Hx]; constructor; [done|].
  eapply Forall_impl; [exact Hx|]. intros y. apply byDurationDesc_false.
Qed.

Lemma strictlyDescending_descending l :
  strictlyDescending l -> descending l.
Proof.
  unfold strictlyDescending, descending. induction 1 as [|x l _ IH Hx].
  - constructor.
  - constructor; [done|]. eapply Forall_impl; [exact Hx|].
    intros y Hy. apply byDurationDesc_false. simpl in Hy. lia.
Qed.

Lemma strictlyDescending_inj l x y :
  strictlyDescending l -> x ∈ l -> y ∈ l -> Duration x = Duration y -> x = y.
Proof.
  unfold strictlyDescending. induction 1 as [|z l _ IH Hz]; intros Hx Hy Hd.
  - by apply elem_of_nil in Hx.
  - rewrite Forall_forall in Hz.
    apply elem_of_cons in Hx as [->|Hx]; apply elem_of_cons in Hy as [->|Hy].
    + done.
    + specialize (Hz _ Hy). simpl in Hz. lia.
    + specialize (Hz _ Hx). simpl in Hz. lia.
    + by apply IH.
Qed.

Lemma insertBack_perm (x : Bucket) rp :
  insertBack byDurationDesc x rp ≡ₚ x :: rp.
Proof.
  induction rp as [|y r IH]; simpl; [done|].
  destruct (byDurationDesc x y); [|done].
  rewrite IH. apply Permutation_swap.
Qed.

Lemma insertBack_sorted (x : Bucket) rp :
  StronglySorted (fun a b => byDurationDesc a b = false) rp ->
  StronglySorted (fun a b => byDurationDesc a b = false)
                 (insertBack byDurationDesc x rp).
Proof.
  induction 1 as [|y r Hr IH Hy]; simpl.
  - repeat constructor.
  - destruct (byDurationDesc x y) eqn:E.
    + constructor; [done|].
      rewrite insertBack_perm. constructor.
      * unfold byDurationDesc in *. lia.
      * done.
    + constructor; [by constructor|].
      constructor; [done|].
      eapply Forall_impl; [exact Hy|]. intros z Hz. simpl in Hz.
      unfold byDurationDesc in *. lia.
Qed.

Lemma insertionSort_perm (l : list Bucket) :
  l ≡ₚ insertionSort byDurationDesc l.
Proof.
  unfold insertionSort. rewrite <- Permutation_rev.
  assert (H : forall acc,
             fold_left (fun rp x => insertBack byDurationDesc x rp) l acc
             ≡ₚ l ++ acc).
  { induction l as [|x l IH]; intros acc; simpl; [done|].
    rewrite IH, insertBack_perm. by rewrite Permutation_middle. }
  by rewrite H, app_nil_r.
Qed.

Lemma insertionSort_sorted (l : list Bucket) :
  descending (insertionSort byDurationDesc l).
Proof.
  unfold descending, insertionSort.
  assert (H : forall acc,
             StronglySorted (fun a b => byDurationDesc a b = false) acc ->
             StronglySorted (fun a b => byDurationDesc a b = false)
               (fold_left (fun rp x => insertBack byDurationDesc x rp) l acc)).
  { induction l as [|x l IH]; intros acc Hacc; simpl; [done|].
    apply IH, insertBack_sorted, Hacc. }
  specialize (H [] ltac:(constructor)).
  revert H. generalize (fold_left (fun rp x => insertBack byDurationDesc x rp) l []).
  intros rp. induction 1 as [|y r Hr IH Hy]; simpl; [constructor|].
  apply StronglySorted_app. split; [|split].
  - intros x1 x2 Hx1 Hx2. apply list_elem_of_singleton in Hx2 as ->.
    rewrite Forall_forall in Hy. apply Hy.
    by apply list_elem_of_In, in_rev, list_elem_of_In.
  - done.
  - repeat constructor.
Qed.

Section SortContract.
Context {S : Type}.
Variable sortSlice : (Bucket -> Bucket -> bool) -> list Bucket -> list Bucket.
Hypothesis sortSlice_perm :
  forall l, l ≡ₚ sortSlice byDurationDesc l.
Hypothesis sortSlice_sorted :
  forall l, descending (sortSlice byDurationDesc l).

Lemma sortSlice_strictlyDescending l :
  strictlyDescending l -> sortSlice byDurationDesc l = l.
Proof using sortSlice_perm sortSlice_sorted.
  intros Hl. symmetry.
  apply (StronglySorted_unique_strong
           (fun i j => byDurationDesc j i = false)).
  - intros x1 x2 H1 H2 H12 H21.
    rewrite <- sortSlice_perm in H2.
    apply (strictlyDescending_inj l); [done..|].
    apply byDurationDesc_false in H12, H21. lia.
  - by apply strictlyDescending_descending.
  - apply sortSlice_sorted.
  - apply sortSlice_perm.
Qed.

Lemma NewCircuitBreaker_strictlyDescending
      (cache : Cache.t S) buckets cacheTTL featureName windowDuration :
  buckets <> [] -> strictlyDescending buckets ->
  NewCircuitBreaker sortSlice cache buckets cacheTTL featureName
    windowDuration
  = NewCircuitBreaker (fun _ l => l) cache buckets cacheTTL featureName
      windowDuration.
Proof using sortSlice_perm sortSlice_sorted.
  intros Hne Hl. unfold NewCircuitBreaker. simpl.
  destruct buckets as [|b bs]; [done|]. simpl.
  by rewrite sortSlice_strictlyDescending.
Qed.

Lemma Buckets_NewCircuitBreaker
      (cache : Cache.t S) buckets cacheTTL featureName windowDuration :
  Buckets (NewCircuitBreaker sortSlice cache buckets cacheTTL featureName
             windowDuration)
  = sortSlice byDurationDesc
      (if (length buckets =? 0)%nat then DefaultBucket else buckets).
Proof. reflexivity. Qed.

Lemma runOps_receiver (fuel : nat) (ops : list Op) :
  forall (c : circuitBreaker S) (w : World S),
    let c' := (runOps fuel (c, w) ops).1 in
    Buckets c' = Buckets c
    /\ Active c' = lastActive (Active c) ops
    /\ Threshold c' = lastThreshold (Threshold c) ops
    /\ WindowDuration c' = WindowDuration c
    /\ FeatureName c' = FeatureName c
    /\ TripKey c' = TripKey c
    /\ WarningAlertKey c' = WarningAlertKey c.
Proof.
  unfold runOps, lastActive, lastThreshold.
  induction ops as [|op ops IH]; intros c w; simpl; [done|].
  destruct op; simpl;
    match goal with
    | |- context [fold_left (runOp fuel) ops (?c1, ?w1)] =>
        destruct (IH c1 w1) as (H1 & H2 & H3 & H4 & H5 & H6 & H7)
    end;
    rewrite H1, H2, H3, H4, H5, H6, H7; done.
Qed.

End SortContract.

(** ** The fixture of [TestCircuitBreaker_GenerateKeys] *)

Lemma fourTiers_strictlyDescending : strictlyDescending Fixture.fourTiers.
Proof.
  unfold strictlyDescending, Fixture.fourTiers.
  repeat (constructor; [|repeat (constructor; [vm_compute; reflexivity|])]);
    constructor.
Qed.

(** C1: with the buckets 4h, 1h, 5m and 1m, a window of 24h and the
    feature name "test", [GenerateKeys] at 2023-05-12T10:12:00Z returns
    the nineteen keys of the test fixture: the head key
    "cb-test-24h-4h-202305120800", five more 4h keys, one 1h key, nine 5m
    keys and three 1m keys, the last one "cb-test-24h-1m-202305111012".
    This holds for every [sort.Slice] that sorts, for every store and
    cache TTL, and as soon as the fuel covers the nine steps of the
    longest tier. *)
Theorem GenerateKeys_fixture_24h {S : Type}
        (sortSlice : (Bucket -> Bucket -> bool) -> list Bucket -> list Bucket)
        (cache : Cache.t S) (cacheTTL : GoTime.Duration) (fuel : nat) :
  (forall l, l ≡ₚ sortSlice byDurationDesc l) ->
  (forall l, descending (sortSlice byDurationDesc l)) ->
  (9 <= fuel)%nat ->
  GenerateKeys fuel
    (NewCircuitBreaker sortSlice cache Fixture.fourTiers cacheTTL "test"
       (GoInt.mul 24 Hour))
    Fixture.may12_1012
  = Return Fixture.expectedKeys.
Proof.
  intros Hperm Hsorted Hfuel.
  rewrite (NewCircuitBreaker_strictlyDescending sortSlice Hperm Hsorted)
    by (done || apply fourTiers_strictlyDescending).
  apply (GenerateKeys_mono _ 9 fuel); [done|].
  vm_compute. reflexivity.
Qed.

Lemma GenerateKeys_fixture_24h_witness :
  (9 <= 9)%nat
  /\ GenerateKeys 9 Fixture.breaker24h Fixture.may12_1012
     = Return Fixture.expectedKeys.
Proof.
  split; [lia|].
  apply (GenerateKeys_fixture_24h insertionSort Fixture.emptyCache
           (GoInt.mul 24 Hour) 9);
    [apply insertionSort_perm | apply insertionSort_sorted | lia].
Defined.

(** ** The bucket list of a breaker *)

Lemma DefaultBucket_strictlyDescending : strictlyDescending DefaultBucket.
Proof.
  unfold strictlyDescending, DefaultBucket.
  repeat (constructor; [|repeat (constructor; [vm_compute; reflexivity|])]);
    constructor.
Qed.

(** C9: after construction and after any sequence of operations, run on
    any world, the bucket list of the engine is non-empty and in
    descending order of duration.  An empty list supplied by the caller is
    replaced at construction by the four default tiers, 4h, 1h, 5m and 1m
    in this order; a non-empty one is kept up to its order.  No operation
    changes the list that construction left, nor the window, the feature
    name and the two flag keys: the operations change the receiver only
    where the setters say, [Active] being what the last [SetActive] set
    and [Threshold] what the last [SetThreshold] set. *)
Theorem Buckets_invariant {S : Type}
        (sortSlice : (Bucket -> Bucket -> bool) -> list Bucket -> list Bucket)
        (cache : Cache.t S) (buckets : list Bucket)
        (cacheTTL : GoTime.Duration) (featureName : string)
        (windowDuration : GoTime.Duration) (ops : list Op)
        (fuel : nat) (w : World S) :
  (forall l, l ≡ₚ sortSlice byDurationDesc l) ->
  (forall l, descending (sortSlice byDurationDesc l)) ->
  let c0 := NewCircuitBreaker sortSlice cache buckets cacheTTL featureName
              windowDuration in
  let c := (runOps fuel (c0, w) ops).1 in
  Buckets c <> []
  /\ StronglySorted (fun i j => Duration j <= Duration i) (Buckets c)
  /\ (buckets = [] ->
      Buckets c
      = [ {| Duration := 14400000000000; Name := "4h" |};
          {| Duration := 3600000000000; Name := "1h" |};
          {| Duration := 300000000000; Name := "5m" |};
          {| Duration := 60000000000; Name := "1m" |} ])
  /\ (buckets <> [] -> Buckets c ≡ₚ buckets)
  /\ Buckets c = Buckets c0
  /\ Active c = lastActive true ops
  /\ Threshold c = lastThreshold (2 ^ 63 - 1) ops
  /\ WindowDuration c = windowDuration
  /\ FeatureName c = featureName
  /\ TripKey c = TripKey c0
  /\ WarningAlertKey c = WarningAlertKey c0.
Proof.
  intros Hperm Hsorted c0 c.
  destruct (runOps_receiver fuel ops c0 w)
    as (Hc & Ha & Ht & Hw & Hf & Hk & Hk').
  fold c in Hc, Ha, Ht, Hw, Hf, Hk, Hk'.
  rewrite Hc. unfold c0 at 1 2 3 4. rewrite Buckets_NewCircuitBreaker.
  set (input := if (length buckets =? 0)%nat then DefaultBucket else buckets).
  assert (Hin : input <> []).
  { unfold input. destruct buckets; simpl; [discriminate | done]. }
  split; [|split; [|split; [|split; [|split]]]].
  - intros E. pose proof (Hperm input) as P. rewrite E in P.
    by apply Permutation_nil_r in P.
  - apply descending_durations, Hsorted.
  - intros ->. unfold input. simpl.
    rewrite (sortSlice_strictlyDescending sortSlice Hperm Hsorted)
      by apply DefaultBucket_strictlyDescending.
    reflexivity.
  - intros Hne. unfold input. destruct buckets; [done|]. simpl.
    symmetry. apply Hperm.
  - unfold c0. by rewrite Buckets_NewCircuitBreaker.
  - split; [exact Ha|]. split; [exact Ht|]. split; [exact Hw|].
    split; [exact Hf|]. split; [exact Hk | exact Hk'].
Qed.

Lemma Buckets_invariant_witness :
  let c := (runOps 9
              (NewCircuitBreaker insertionSort Fixture.emptyCache []
                 (GoInt.mul 24 Hour) "test" (GoInt.mul 24 Hour),
               Fixture.world0 tt Fixture.may12_1012)
              [OpSetThreshold 5; OpIsExceedingThreshold 7; OpSetActive false;
               OpUpdateTrip true]).1 in
  Buckets c
  = [NewBucket (GoInt.mul 4 Hour); NewBucket Hour;
     NewBucket (GoInt.mul 5 Minute); NewBucket Minute]
  /\ StronglySorted (fun i j => Duration j <= Duration i) (Buckets c)
  /\ Active c = false /\ Threshold c = 5.
Proof.
  destruct (Buckets_invariant insertionSort Fixture.emptyCache []
              (GoInt.mul 24 Hour) "test" (GoInt.mul 24 Hour)
              [OpSetThreshold 5; OpIsExceedingThreshold 7; OpSetActive false;
               OpUpdateTrip true]
              9 (Fixture.world0 tt Fixture.may12_1012)
              insertionSort_perm insertionSort_sorted)
    as (_ & Hs & Hd & _ & _ & Ha & Ht & _).
  split; [exact (Hd eq_refl)|]. split; [exact Hs|].
  split; [exact Ha | exact Ht].
Defined.

(** ** Truncation *)

Lemma Minute_pos : 0 < Minute.
Proof. reflexivity. Qed.

Lemma Truncate_pos t d : 0 < d -> Truncate t d = t - t mod d.
Proof. intros Hd. unfold Truncate. destruct (Z.leb_spec d 0); [lia | done]. Qed.

Lemma Truncate_divide t d : 0 < d -> (d | Truncate t d).
Proof.
  intros Hd. rewrite Truncate_pos by done. apply mod0_divide; [done|].
  rewrite Zminus_mod_idemp_r, Z.sub_diag. apply Z.mod_0_l. lia.
Qed.

Lemma Truncate_bounds t d :
  0 < d -> Truncate t d <= t < Truncate t d + d.
Proof.
  intros Hd. rewrite Truncate_pos by done.
  pose proof (Z.mod_pos_bound t d Hd). lia.
Qed.

Lemma Truncate_sub_multiple t w d :
  0 < d -> (d | w) -> Truncate (t - w) d = Truncate t d - w.
Proof.
  intros Hd [k ->]. rewrite !Truncate_pos by done.
  replace (t - k * d) with (t + (- k) * d) by lia.
  rewrite Z.mod_add by lia. lia.
Qed.

Lemma between_multiples f a b :
  0 < f -> (f | a) -> (f | b) -> a <= b < a + f -> b = a.
Proof.
  intros Hf [k ->] [m ->] H.
  assert (m = k) by nia. by subst.
Qed.

(** ** Key generation: the walk from the head key *)

Lemma tierWalk_stop_head startTime b bs e :
  Forall (fun b => positive64 (Duration b)) (b :: bs) ->
  startTime <= e ->
  startTime <= (tierWalk (b :: bs) startTime e).1.2
            < startTime + finest (Duration b) bs.
Proof.
  intros Hpos He. inversion Hpos as [|? ? [Hb Hbmax] Hbs]; subst.
  pose proof (stepCount_stop (Duration b) startTime e Hb He) as H1.
  simpl in H1.
  pose proof (tierWalk_stop startTime bs (Duration b) _ Hbs Hb H1) as H2.
  simpl. destruct (tierWalk bs startTime _) as [[ks e'] f]. done.
Qed.

(** On tiers that divide one another down to a divisor of the minute,
    the walk ends exactly on [startTime]. *)
Lemma tierWalk_lands startTime b bs e :
  Forall (fun b => positive64 (Duration b)) (b :: bs) ->
  divChain (Duration b) bs ->
  Minute mod finest (Duration b) bs = 0 ->
  (Duration b | e) -> (Minute | startTime) ->
  startTime <= e ->
  (tierWalk (b :: bs) startTime e).1.2 = startTime.
Proof.
  intros Hpos Hdiv Hmin He Hst Hle.
  pose proof (tierWalk_stop_head startTime b bs e Hpos Hle) as Hstop.
  inversion Hpos as [|? ? [Hb Hbmax] Hbs]; subst.
  destruct (divChain_finest bs (Duration b) Hbs Hb Hdiv) as (Hf & Hfd & _).
  assert (Hdiv' : divChain (Duration b) (b :: bs)).
  { split; [apply Z.mod_same; lia | done]. }
  destruct (tierWalk_aligned startTime (b :: bs) (Duration b) e Hpos Hb He Hdiv')
    as [_ Hfin].
  simpl finest in Hfin.
  apply mod0_divide in Hmin; [|done].
  apply (between_multiples (finest (Duration b) bs)); [done| |done|done].
  exact (Z.divide_trans _ _ _ Hmin Hst).
Qed.

(** ** Key generation: tiling of the window *)

(** C2, as the code has it: when every tier is a positive duration that
    divides the tier before it and the finest tier divides the minute (as
    in the default tiers 4h, 1h, 5m, 1m), [GenerateKeys] returns, for
    every instant [now], the head key followed by keys that are all
    aligned to their own tier; every instant of
    [now - windowDuration, now] lies in the bucket of exactly one key; and
    when the window is a whole number of minutes no shorter than the
    coarsest tier, counting each key after the head for the number of
    finest-tier buckets it spans, and the head for those between its
    boundary and the current minute, gives
    [windowDuration / finestBucketDuration]. *)
Theorem GenerateKeys_tiles_window {S : Type} (c : circuitBreaker S)
        (b0 : Bucket) (bs : list Bucket) (now : Time) :
  Buckets c = b0 :: bs ->
  Forall (fun b => positive64 (Duration b)) (b0 :: bs) ->
  divChain (Duration b0) bs ->
  Minute mod finest (Duration b0) bs = 0 ->
  MinInt < WindowDuration c <= MaxInt ->
  let f := finest (Duration b0) bs in
  let head := Truncate now (Duration b0) in
  exists (ks : list Point) (n : nat),
    let pts := (b0, head) :: ks in
    (forall fuel, (n <= fuel)%nat ->
       keyPoints fuel (Buckets c) (WindowDuration c) now = Return pts
       /\ GenerateKeys fuel c now = Return (map (keyOf c) pts))
    /\ Forall aligned pts
    /\ Forall (fun p : Point => p.1 ∈ Buckets c) pts
    /\ tilesWindowOnce (WindowDuration c) now pts
    /\ (Duration b0 <= WindowDuration c ->
        WindowDuration c mod Minute = 0 ->
        sumTicks f ks + (Truncate now Minute - head) / f
        = WindowDuration c / f).
Proof.
  intros HB Hpos Hdiv Hmin HW f head.
  set (W := WindowDuration c) in *.
  set (startTime := Truncate (now - W) Minute).
  inversion Hpos as [|? ? [Hb0 Hb0max] Hbs]; subst.
  assert (Hhead : (Duration b0 | head)) by (by apply Truncate_divide).
  pose proof (Truncate_bounds now (Duration b0) Hb0) as Hhb. fold head in Hhb.
  pose proof (Truncate_bounds (now - W) Minute Minute_pos) as Hsb.
  fold startTime in Hsb.
  assert (Hst : (Minute | startTime)) by apply Truncate_divide, Minute_pos.
  destruct (divChain_finest bs (Duration b0) Hbs Hb0 Hdiv) as (Hf & Hfd & Hfall).
  fold f in Hf, Hfd, Hfall.
  assert (Hdiv' : divChain (Duration b0) (b0 :: bs)).
  { split; [apply Z.mod_same; lia | done]. }
  pose proof (tierWalk_chain startTime (b0 :: bs) head Hpos) as Hchain.
  pose proof (tierWalk_buckets startTime (b0 :: bs) head) as Hbk.
  destruct (tierWalk_aligned startTime (b0 :: bs) (Duration b0) head
              Hpos Hb0 Hhead Hdiv') as [Hal _].
  pose proof (tierWalk_lands startTime b0 bs head Hpos Hdiv Hmin Hhead Hst)
    as Hland.
  pose proof (keyPoints_range_run startTime (b0 :: bs) head [(b0, head)])
    as Hrun.
  destruct (tierWalk (b0 :: bs) startTime head) as [[ks e'] n] eqn:Ewalk.
  simpl in Hchain, Hbk, Hal, Hland. cbn [fst snd] in Hrun.
  specialize (fun fuel => Hrun fuel Hpos).
  exists ks, n. cbv zeta. repeat split.
  - rewrite HB. unfold keyPoints.
    rewrite int_neg by done. unfold Add.
    replace (now + - W) with (now - W) by lia.
    by apply Hrun.
  - rewrite GenerateKeys_points, HB. unfold keyPoints.
    fold W. rewrite int_neg by done. unfold Add.
    replace (now + - W) with (now - W) by lia.
    fold startTime head. rewrite Hrun by done. reflexivity.
  - constructor; [|done]. unfold aligned. simpl.
    by apply mod0_divide.
  - rewrite HB. constructor; [simpl; by apply elem_of_cons; left | done].
  - intros x Hx. destruct (Z_lt_ge_dec x head) as [Hlt|Hge].
    + rewrite Hland in Hchain by lia.
      destruct (chain_cover head ks startTime x Hchain ltac:(lia))
        as (p & Hin & Hcov & Huniq).
      exists p. split; [by apply elem_of_cons; right|]. split; [done|].
      intros q Hq Hcq. apply elem_of_cons in Hq as [->|Hq]; [|by apply Huniq].
      unfold covers in Hcq. simpl in Hcq. lia.
    + exists (b0, head). split; [by apply elem_of_cons; left|].
      split; [unfold covers; simpl; lia|].
      intros q Hq Hcq. apply elem_of_cons in Hq as [->|Hq]; [done|].
      pose proof (chain_inside _ _ _ _ _ Hchain Hq Hcq). lia.
  - intros Hd0 HWmin.
    rewrite Hland in Hchain by lia.
    apply chain_sum in Hchain.
    assert (Hticks : sumTicks f ks * f = sumDurations ks).
    { apply sumTicks_sumDurations; [done|].
      rewrite Forall_forall in Hbk. rewrite Forall_forall in Hfall.
      apply Forall_forall. intros p Hp.
      specialize (Hbk p Hp). apply elem_of_cons in Hbk as [->|Hbk]; [done|].
      by apply Hfall. }
    apply mod0_divide in Hmin; [|done].
    apply mod0_divide in HWmin; [|apply Minute_pos].
    assert (Hstart : startTime = Truncate now Minute - W).
    { unfold startTime. by apply Truncate_sub_multiple; [apply Minute_pos|]. }
    assert (HfT : (f | Truncate now Minute - head)).
    { apply Z.divide_sub_r.
      - apply (Z.divide_trans _ Minute); [done|].
        apply Truncate_divide, Minute_pos.
      - by apply (Z.divide_trans _ (Duration b0)). }
    destruct HfT as [k Hk]. rewrite Hk, Z.div_mul by lia.
    assert (HWf : W = (sumTicks f ks + k) * f) by lia.
    rewrite HWf, Z.div_mul by lia. done.
Qed.

Lemma GenerateKeys_tiles_window_witness :
  exists ks n,
    (forall fuel, (n <= fuel)%nat ->
       GenerateKeys fuel Fixture.breaker24h Fixture.may12_1012
       = Return (map (keyOf Fixture.breaker24h)
                     ((NewBucket (GoInt.mul 4 Hour),
                       Truncate Fixture.may12_1012 (GoInt.mul 4 Hour)) :: ks)))
    /\ tilesWindowOnce (GoInt.mul 24 Hour) Fixture.may12_1012
         ((NewBucket (GoInt.mul 4 Hour),
           Truncate Fixture.may12_1012 (GoInt.mul 4 Hour)) :: ks)
    /\ sumTicks Minute ks
       + (Truncate Fixture.may12_1012 Minute
          - Truncate Fixture.may12_1012 (GoInt.mul 4 Hour)) / Minute
       = GoInt.mul 24 Hour / Minute.
Proof.
  destruct (GenerateKeys_tiles_window Fixture.breaker24h
              (NewBucket (GoInt.mul 4 Hour))
              [NewBucket (GoInt.mul 1 Hour); NewBucket (GoInt.mul 5 Minute);
               NewBucket (GoInt.mul 1 Minute)]
              Fixture.may12_1012)
    as (ks & n & Hrun & _ & _ & Htile & Hsum).
  - reflexivity.
  - repeat constructor; vm_compute; congruence.
  - vm_compute. tauto.
  - reflexivity.
  - vm_compute. split; [reflexivity | congruence].
  - exists ks, n. split; [intros fuel Hf; apply (Hrun fuel Hf)|].
    split; [exact Htile|].
    apply Hsum; [vm_compute; congruence | reflexivity].
Defined.

(** With the single tier 4h and a window of 24h, the keys generated at
    2023-05-12T10:12:00Z reach back to 2023-05-11T12:00 only: the start
    of the window, 2023-05-11T10:12, is in no key's bucket. *)
Lemma tiles_window_counterexample :
  exists pts,
    keyPoints 5 (Buckets Fixture.breaker4h)
      (WindowDuration Fixture.breaker4h) Fixture.may12_1012 = Return pts
    /\ GenerateKeys 5 Fixture.breaker4h Fixture.may12_1012
       = Return (map (keyOf Fixture.breaker4h) pts)
    /\ ~ tilesWindow (WindowDuration Fixture.breaker4h)
           Fixture.may12_1012 pts.
Proof.
  eexists. split; [vm_compute; reflexivity|].
  split; [vm_compute; reflexivity|].
  intros Htile.
  destruct (Htile (Date 2023 5 11 10 12 0 0)) as (p & Hin & Hcov).
  { vm_compute. split; congruence. }
  repeat (apply elem_of_cons in Hin as [->|Hin];
          [vm_compute in Hcov; destruct Hcov as [H1 H2];
           try (by apply H1); discriminate H2|]).
  by apply elem_of_nil in Hin.
Qed.

(** ** Key generation: one tier as long as the window *)

Lemma mod_mod_divide a m d :
  0 < m -> 0 < d -> (m | d) -> (a mod d) mod m = a mod m.
Proof. intros Hm Hd Hdiv. by apply Z.mod_mod_divide. Qed.

(** C3, as the code has it: with a single tier whose duration is a
    positive whole number of minutes and equal to the window,
    [GenerateKeys] yields exactly two keys (the head key and one step of
    the tier, at the boundary [startTime]) at every instant less than a
    minute past a boundary of the tier, and the head key alone at every
    other instant. *)
Theorem GenerateKeys_single_tier {S : Type} (c : circuitBreaker S)
        (b : Bucket) (now : Time) (fuel : nat) :
  Buckets c = [b] ->
  positive64 (Duration b) ->
  WindowDuration c = Duration b ->
  Duration b mod Minute = 0 ->
  (1 <= fuel)%nat ->
  let head := Truncate now (Duration b) in
  let startTime :=
    Truncate (Add now (GoInt.mul (-1) (WindowDuration c))) Minute in
  (now mod Duration b < Minute ->
   GenerateKeys fuel c now
   = Return [getTimePointKey c (Name b) head;
             getTimePointKey c (Name b) (head - Duration b)]
   /\ head - Duration b = startTime)
  /\ (Minute <= now mod Duration b ->
      GenerateKeys fuel c now = Return [getTimePointKey c (Name b) head]).
Proof.
  intros HB [Hb Hbmax] HW Hmin Hfuel head startTime.
  assert (Hpos : Forall (fun b => positive64 (Duration b)) [b]).
  { by repeat constructor. }
  apply mod0_divide in Hmin; [|apply Minute_pos].
  pose proof Minute_pos as HM.
  assert (Hhead : head = now - now mod Duration b).
  { unfold head. by apply Truncate_pos. }
  assert (Hstart : startTime = head + now mod Duration b - Duration b
                               - (now mod Duration b) mod Minute).
  { unfold startTime. rewrite HW, int_neg by (unfold MinInt; lia).
    unfold Add. replace (now + - Duration b) with (now - Duration b) by lia.
    rewrite Truncate_sub_multiple, Truncate_pos by done.
    rewrite Hhead, mod_mod_divide by done. lia. }
  pose proof (Z.mod_pos_bound now (Duration b) Hb) as Hr.
  pose proof (Z.mod_pos_bound (now mod Duration b) Minute HM) as Hrm.
  assert (Hkeys : forall n,
             stepCount (Duration b) startTime head = n -> (n <= fuel)%nat ->
             GenerateKeys fuel c now
             = Return (map (keyOf c) ((b, head) :: stepPoints b head n))).
  { intros n Hn Hnf. rewrite GenerateKeys_points, HB. unfold keyPoints.
    fold head startTime.
    rewrite (keyPoints_range_run startTime [b] head)
      by (simpl; rewrite ?Hn; try done; lia).
    simpl. rewrite Hn. by rewrite app_nil_r. }
  split.
  - intros Hlt.
    rewrite (Z.mod_small (now mod Duration b) Minute) in Hstart by lia.
    split; [|lia].
    rewrite (Hkeys 1%nat); [done | | done].
    unfold stepCount.
    replace (head - startTime) with (1 * Duration b) by lia.
    rewrite Z.div_mul by lia. done.
  - intros Hge. rewrite (Hkeys 0%nat); [done | | lia].
    unfold stepCount.
    assert ((now mod Duration b) mod Minute <= now mod Duration b - Minute).
    { pose proof (Z.div_mod (now mod Duration b) Minute ltac:(lia)).
      assert (1 <= (now mod Duration b) / Minute)
        by (apply Z.div_le_lower_bound; lia).
      nia. }
    rewrite Z.div_small by lia. done.
Qed.

Lemma GenerateKeys_single_tier_witness :
  GenerateKeys 1 Fixture.breakerDay Fixture.may12_0000
  = Return ["cb-test-24h-24h-202305120000"; "cb-test-24h-24h-202305110000"]
  /\ GenerateKeys 1 Fixture.breakerDay Fixture.may12_1012
     = Return ["cb-test-24h-24h-202305120000"].
Proof.
  split.
  - apply (GenerateKeys_single_tier Fixture.breakerDay
             (NewBucket (GoInt.mul 24 Hour)) Fixture.may12_0000 1);
      [reflexivity | vm_compute; split; congruence | reflexivity
       | reflexivity | lia | reflexivity].
  - apply (GenerateKeys_single_tier Fixture.breakerDay
             (NewBucket (GoInt.mul 24 Hour)) Fixture.may12_1012 1);
      [reflexivity | vm_compute; split; congruence | reflexivity
       | reflexivity | lia | vm_compute; congruence].
Defined.

(** With the single tier 24h and a window of 24h, [GenerateKeys] at
    2023-05-12T10:12:00Z yields the head key and nothing else, whatever
    the fuel. *)
Lemma single_tier_counterexample :
  Buckets Fixture.breakerDay = [NewBucket (GoInt.mul 24 Hour)]
  /\ WindowDuration Fixture.breakerDay
     = Duration (NewBucket (GoInt.mul 24 Hour))
  /\ forall fuel,
       GenerateKeys fuel Fixture.breakerDay Fixture.may12_1012
       = Return ["cb-test-24h-24h-202305120000"]
       /\ ~ exists k1 k2,
              GenerateKeys fuel Fixture.breakerDay Fixture.may12_1012
              = Return [k1; k2].
Proof.
  split; [reflexivity|]. split; [reflexivity|].
  intros fuel.
  assert (H : GenerateKeys fuel Fixture.breakerDay Fixture.may12_1012
              = Return ["cb-test-24h-24h-202305120000"]).
  { apply (GenerateKeys_mono _ 0 fuel); [lia | vm_compute; reflexivity]. }
  split; [exact H|].
  intros (k1 & k2 & H'). rewrite H in H'. discriminate.
Qed.

(** ** Aggregation and threshold checks *)

(** C4: on an inactive breaker [CalculateWindowValue] returns
    [math.MaxInt] whatever the store holds, and leaves the world as it
    was: no call reaches the store. *)
Theorem CalculateWindowValue_inactive {S : Type} (c : circuitBreaker S)
        (fuel : nat) (w : World S) :
  Active c = false ->
  CalculateWindowValue fuel c w = (Return (2 ^ 63 - 1), w).
Proof. intros Hc. unfold CalculateWindowValue. rewrite Hc. reflexivity. Qed.

Lemma CalculateWindowValue_inactive_witness :
  Active (SetActive Fixture.breakerMock false) = false
  /\ CalculateWindowValue 0 (SetActive Fixture.breakerMock false)
       (Fixture.world0 tt Fixture.may12_1012)
     = (Return MaxInt, Fixture.world0 tt Fixture.may12_1012).
Proof.
  split; [reflexivity|].
  apply (CalculateWindowValue_inactive (SetActive Fixture.breakerMock false)).
  reflexivity.
Defined.

Lemma bind_Return {S A B} (m : M S A) (k : A -> M S B) w a w' :
  m w = (Return a, w') -> (m ≫= k) w = k a w'.
Proof. intros H. unfold mbind, M_bind. by rewrite H. Qed.

(** C5: on an inactive breaker [IsExceedingThreshold] and
    [IsExceedingWarningThreshold] answer false without touching the
    world; on an active one, once [CalculateWindowValue] has returned
    [value], they answer whether [value + amount], computed as Go's [int]
    computes it, is at least the threshold, respectively the warning
    threshold: equality counts as exceeding, and the sum is the
    mathematical one whenever that fits an [int]. *)
Theorem IsExceedingThreshold_spec {S : Type} (c : circuitBreaker S)
        (fuel : nat) (amount : Z) (w : World S) :
  (Active c = false ->
   IsExceedingThreshold fuel c amount w = (Return false, w)
   /\ IsExceedingWarningThreshold fuel c amount w = (Return false, w))
  /\ (Active c = true ->
      forall value w',
        CalculateWindowValue fuel c w = (Return value, w') ->
        let total := GoInt.add value amount in
        IsExceedingThreshold fuel c amount w
        = (Return (bool_decide (Threshold c <= total)), w')
        /\ IsExceedingWarningThreshold fuel c amount w
           = (Return (bool_decide (WarningThreshold c <= total)), w')
        /\ (in_range (value + amount) -> total = value + amount)).
Proof.
  split.
  - intros Hc. unfold IsExceedingThreshold, IsExceedingWarningThreshold.
    by rewrite Hc.
  - intros Hc value w' Hv total.
    unfold IsExceedingThreshold, IsExceedingWarningThreshold. rewrite Hc.
    simpl. rewrite !(bind_Return _ _ _ _ _ Hv). fold total.
    split; [|split].
    + unfold mret, M_ret. do 2 f_equal.
      destruct (Z.leb_spec (Threshold c) total);
        [by rewrite bool_decide_eq_true_2
        | by rewrite bool_decide_eq_false_2 by lia].
    + unfold mret, M_ret. do 2 f_equal.
      destruct (Z.leb_spec (WarningThreshold c) total);
        [by rewrite bool_decide_eq_true_2
        | by rewrite bool_decide_eq_false_2 by lia].
    + apply wrap64_id.
Qed.

Lemma IsExceedingThreshold_spec_witness :
  IsExceedingThreshold 9 (SetActive Fixture.breakerMock false) 20000
    (Fixture.world0 tt Fixture.may12_1012)
  = (Return false, Fixture.world0 tt Fixture.may12_1012)
  /\ (IsExceedingThreshold 9 Fixture.breakerMock 20000
        (Fixture.world0 tt Fixture.may12_1012)).1
     = Return true
  /\ (IsExceedingThreshold 9 Fixture.breakerMock 19999
        (Fixture.world0 tt Fixture.may12_1012)).1
     = Return false.
Proof.
  assert (E : exists w',
             CalculateWindowValue 9 Fixture.breakerMock
               (Fixture.world0 tt Fixture.may12_1012)
             = (Return 80000, w')).
  { eexists. vm_compute. reflexivity. }
  split; [|split].
  - apply (IsExceedingThreshold_spec (SetActive Fixture.breakerMock false)).
    reflexivity.
  - destruct (IsExceedingThreshold_spec Fixture.breakerMock 9 20000
                (Fixture.world0 tt Fixture.may12_1012)) as [_ H].
    destruct E as [w' E].
    destruct (H eq_refl 80000 w' E) as (-> & _ & _). reflexivity.
  - destruct (IsExceedingThreshold_spec Fixture.breakerMock 9 19999
                (Fixture.world0 tt Fixture.may12_1012)) as [_ H].
    destruct E as [w' E].
    destruct (H eq_refl 80000 w' E) as (-> & _ & _). reflexivity.
Defined.

(** ** Flags *)

Lemma updateBoolCache_active {S : Type} (c : circuitBreaker S)
      (isTripped : bool) (cacheKey : string) (expiration : GoTime.Duration)
      (w : World S) :
  Active c = true ->
  updateBoolCache c isTripped cacheKey expiration w
  = (Return tt,
     record (CallSet cacheKey (Bool isTripped) (CacheTTL c))
       (Cache.Set_ (cb_Cache c) cacheKey (Bool isTripped) (CacheTTL c)
          (store w)) w).
Proof. intros Hc. unfold updateBoolCache. by rewrite Hc. Qed.

Lemma updateBoolCache_inactive {S : Type} (c : circuitBreaker S)
      (isTripped : bool) (cacheKey : string) (expiration : GoTime.Duration)
      (w : World S) :
  Active c = false ->
  updateBoolCache c isTripped cacheKey expiration w = (Return tt, w).
Proof. intros Hc. unfold updateBoolCache. by rewrite Hc. Qed.

(** What holds of C6: both updates do nothing on an inactive breaker, and
    on an active one [UpdateTrip] overwrites the flag at [TripKey] with
    the TTL [CacheTTL]. *)
Lemma UpdateTrip_spec {S : Type} (c : circuitBreaker S) (isTripped : bool)
      (w : World S) :
  (Active c = false ->
   UpdateTrip c isTripped w = (Return tt, w)
   /\ UpdateTripWarning c isTripped w = (Return tt, w))
  /\ (Active c = true ->
      UpdateTrip c isTripped w
      = (Return tt,
         record (CallSet (TripKey c) (Bool isTripped) (CacheTTL c))
           (Cache.Set_ (cb_Cache c) (TripKey c) (Bool isTripped)
              (CacheTTL c) (store w)) w)).
Proof.
  split.
  - intros Hc. split; by apply updateBoolCache_inactive.
  - intros Hc. by apply updateBoolCache_active.
Qed.

(** C6, where the code departs from it: on an active breaker
    [UpdateTripWarning] writes the warning flag with the TTL [CacheTTL],
    not with the twelve hours of [WarningAlertKeyExpiration] that it hands
    to [updateBoolCache].  On the breaker of the test, whose cache TTL is
    24h, the one call that reaches the store carries 24h. *)
Theorem UpdateTripWarning_ttl :
  WarningAlertKeyExpiration = 12 * Hour
  /\ CacheTTL Fixture.breakerMem = 24 * Hour
  /\ calls (UpdateTripWarning Fixture.breakerMem true
              (Fixture.world0 ∅ Fixture.may12_1012)).2
     = [CallSet "cb-warning_alert-test_window-168h" (Bool true) (24 * Hour)]
  /\ forall {S : Type} (c : circuitBreaker S) (isTripped : bool)
            (w : World S),
       Active c = true ->
       calls (UpdateTripWarning c isTripped w).2
       = calls w ++ [CallSet (WarningAlertKey c) (Bool isTripped) (CacheTTL c)].
Proof.
  split; [reflexivity|]. split; [reflexivity|]. split; [reflexivity|].
  intros S c isTripped w Hc. unfold UpdateTripWarning.
  by rewrite updateBoolCache_active.
Qed.

(** C7: [GetTrip] and [GetTripWarning] answer [(false, nil)] on an
    inactive breaker, without a call to the store.  On an active one they
    read their key once; an error from the store becomes the error
    [ErrCacheMiss] next to [false], which differs from the answer
    [(false, nil)]; a boolean read without error is returned as it is.
    Behind either [cache] of [cache.go], a key the store does not hold is
    such an error, and a boolean it holds is returned. *)
Theorem flags_read {S : Type} (c : circuitBreaker S) (w : World S) :
  Forall
    (fun '(get, key) =>
       (Active c = false -> get w = (Return (false, None), w))
       /\ (Active c = true ->
           forall object err s,
             Cache.Get (cb_Cache c) key (store w) = ((object, err), s) ->
             let w' := record (CallGet key) s w in
             (err <> None ->
              get w = (Return (false, Some ErrCacheMiss), w')
              /\ (Return (false, Some ErrCacheMiss), w')
                 <> (Return (false, @None error), w'))
             /\ (forall b, err = None -> object = Bool b ->
                           get w = (Return (b, None), w')))
       /\ (forall (adapter : Adapter.t S) (expiration : GoTime.Duration)
                  object found s,
             Active c = true ->
             cb_Cache c = cache.NewCache adapter expiration
             \/ cb_Cache c = gocache.NewCache adapter expiration ->
             Adapter.Get adapter key (store w) = ((object, found), s) ->
             let w' := record (CallGet key) s w in
             (found = false ->
              get w = (Return (false, Some ErrCacheMiss), w'))
             /\ (forall b, found = true -> object = Bool b ->
                           get w = (Return (b, None), w'))))
    [(GetTrip c, TripKey c); (GetTripWarning c, WarningAlertKey c)].
Proof.
  assert (H : forall key,
             (Active c = false ->
              getBoolCache c key w = (Return (false, None), w))
             /\ (Active c = true ->
                 forall object err s,
                   Cache.Get (cb_Cache c) key (store w) = ((object, err), s) ->
                   let w' := record (CallGet key) s w in
                   (err <> None ->
                    getBoolCache c key w
                    = (Return (false, Some ErrCacheMiss), w')
                    /\ (Return (false, Some ErrCacheMiss), w')
                       <> (Return (false, @None error), w'))
                   /\ (forall b, err = None -> object = Bool b ->
                                 getBoolCache c key w
                                 = (Return (b, None), w')))).
  { intros key. split.
    - intros Hc. unfold getBoolCache. by rewrite Hc.
    - intros Hc object err s Hget w'. unfold getBoolCache. rewrite Hc. simpl.
      unfold mbind, M_bind, Cache_Get. rewrite Hget. fold w'.
      split.
      + intros Herr. destruct err; [|done]. split; [done | congruence].
      + intros b -> ->. reflexivity. }
  assert (H' : forall key (adapter : Adapter.t S) expiration object found s,
             Active c = true ->
             cb_Cache c = cache.NewCache adapter expiration
             \/ cb_Cache c = gocache.NewCache adapter expiration ->
             Adapter.Get adapter key (store w) = ((object, found), s) ->
             let w' := record (CallGet key) s w in
             (found = false ->
              getBoolCache c key w = (Return (false, Some ErrCacheMiss), w'))
             /\ (forall b, found = true -> object = Bool b ->
                           getBoolCache c key w = (Return (b, None), w'))).
  { intros key adapter expiration object found s Hc Hcache Hget w'.
    destruct (H key) as [_ Hact]. specialize (Hact Hc).
    split.
    - intros ->.
      destruct (Hact Nil (Some ErrCacheMiss) s) as [Hmiss _].
      + destruct Hcache as [-> | ->]; simpl;
          unfold cache.Get, gocache.Get; by rewrite Hget.
      + by apply Hmiss.
    - intros b -> ->.
      destruct (Hact (Bool b) None s) as [_ Hok].
      + destruct Hcache as [-> | ->]; simpl;
          unfold cache.Get, gocache.Get; by rewrite Hget.
      + by apply Hok. }
  apply Forall_cons. split; [|apply Forall_cons; split; [|constructor]].
  - split; [apply (H (TripKey c))|].
    split; [apply (H (TripKey c)) | apply (H' (TripKey c))].
  - split; [apply (H (WarningAlertKey c))|].
    split; [apply (H (WarningAlertKey c)) | apply (H' (WarningAlertKey c))].
Qed.

Lemma flags_read_witness :
  GetTrip (SetActive Fixture.breakerMem false)
    (Fixture.world0 ∅ Fixture.may12_1012)
  = (Return (false, None), Fixture.world0 ∅ Fixture.may12_1012)
  /\ (GetTrip Fixture.breakerMem (Fixture.world0 ∅ Fixture.may12_1012)).1
     = Return (false, Some ErrCacheMiss)
  /\ (GetTripWarning Fixture.breakerMem
        (Fixture.world0 (<["cb-warning_alert-test_window-168h" := Bool true]> ∅)
           Fixture.may12_1012)).1
     = Return (true, None).
Proof.
  split; [|split].
  - pose proof (flags_read (SetActive Fixture.breakerMem false)
                  (Fixture.world0 ∅ Fixture.may12_1012)) as H.
    apply Forall_cons in H as [[H _] _]. apply H. reflexivity.
  - pose proof (flags_read Fixture.breakerMem
                  (Fixture.world0 ∅ Fixture.may12_1012)) as H.
    apply Forall_cons in H as [(_ & _ & H) _].
    destruct (H Fixture.memAdapter (GoInt.mul 5 Minute) Nil false ∅
                eq_refl (or_introl eq_refl) eq_refl) as [Hmiss _].
    rewrite (Hmiss eq_refl). reflexivity.
  - pose proof (flags_read Fixture.breakerMem
                  (Fixture.world0
                     (<["cb-warning_alert-test_window-168h" := Bool true]> ∅)
                     Fixture.may12_1012)) as H.
    apply Forall_cons in H as [_ H]. apply Forall_cons in H as [(_ & _ & H) _].
    destruct (H Fixture.memAdapter (GoInt.mul 5 Minute) (Bool true) true
                (<["cb-warning_alert-test_window-168h" := Bool true]> ∅)
                eq_refl (or_introl eq_refl) eq_refl) as [_ Hok].
    rewrite (Hok true eq_refl eq_refl). reflexivity.
Defined.

(** ** Writes *)

Lemma calls_incremented {S : Type} (c : circuitBreaker S) (amount : Z)
      (keys : list string) :
  forall w : World S,
    calls (incremented c amount keys w)
    = calls w ++ map (fun key => CallIncrementInt key amount) keys
    /\ clock (incremented c amount keys w) = clock w.
Proof.
  unfold incremented.
  induction keys as [|key keys IH]; intros w; simpl.
  - by rewrite app_nil_r.
  - destruct (IH (Cache_IncrementInt c key amount w).2) as [-> ->].
    unfold Cache_IncrementInt.
    destruct (Cache.IncrementInt _ _ _ _) as [r s]. simpl.
    by rewrite <- app_assoc.
Qed.

Lemma store_incremented {S : Type} (c : circuitBreaker S) (amount : Z)
      (keys : list string) :
  forall w : World S,
    store (incremented c amount keys w)
    = fold_left
        (fun s key => (Cache.IncrementInt (cb_Cache c) key amount s).2)
        keys (store w).
Proof.
  unfold incremented.
  induction keys as [|key keys IH]; intros w; simpl; [done|].
  rewrite IH. unfold Cache_IncrementInt.
  by destruct (Cache.IncrementInt _ _ _ _) as [r s].
Qed.

Lemma UpdateLatestBucketsValue_range_spec {S : Type} (c : circuitBreaker S)
      (now : Time) (amount : Z) :
  forall (buckets : list Bucket) (w : World S) (k : nat),
    let keys :=
      map (fun bucket =>
             getTimePointKey c (Name bucket) (Truncate now (Duration bucket)))
          buckets in
    (forall j key, (j < k)%nat -> keys !! j = Some key ->
       incrementError c amount key (incremented c amount (take j keys) w)
       = None) ->
    (k = length keys ->
     UpdateLatestBucketsValue_range c now amount buckets w
     = (Return None, incremented c amount keys w))
    /\ (forall key e,
          keys !! k = Some key ->
          incrementError c amount key (incremented c amount (take k keys) w)
          = Some e ->
          UpdateLatestBucketsValue_range c now amount buckets w
          = (Return (Some e),
             incremented c amount (take (Datatypes.S k) keys) w)).
Proof.
  induction buckets as [|b bs IH]; intros w k keys Hok.
  - split; [done|]. intros key e Hk. unfold keys in Hk. simpl in Hk.
    by rewrite lookup_nil in Hk.
  - simpl in keys.
    set (key0 := getTimePointKey c (Name b) (Truncate now (Duration b))) in *.
    set (keys' := map (fun bucket => getTimePointKey c (Name bucket)
                                       (Truncate now (Duration bucket))) bs)
      in *.
    assert (Hstep : forall err,
               incrementError c amount key0 w = err ->
               UpdateLatestBucketsValue_range c now amount (b :: bs) w
               = match err with
                 | Some e => (Return (Some e), incremented c amount [key0] w)
                 | None =>
                     UpdateLatestBucketsValue_range c now amount bs
                       (incremented c amount [key0] w)
                 end).
    { intros err Herr. simpl. fold key0.
      unfold mbind, M_bind, incremented, incrementError in *. simpl.
      unfold Cache_IncrementInt in *.
      destruct (Cache.IncrementInt (cb_Cache c) key0 amount (store w))
        as [[v err'] s]. simpl in *. subst err'. by destruct err. }
    destruct k as [|k].
    + split; [intros Hk; discriminate|].
      intros key e Hk Herr. simpl in Hk. injection Hk as <-.
      simpl in Herr. by rewrite (Hstep _ Herr).
    + assert (H0 : incrementError c amount key0 w = None).
      { apply (Hok 0%nat key0); [lia | done]. }
      rewrite (Hstep _ H0).
      destruct (IH (incremented c amount [key0] w) k) as [IH1 IH2].
      { intros j key Hj Hkey. fold keys' in Hkey.
        apply (Hok (Datatypes.S j) key); [lia | done]. }
      fold keys' in IH1, IH2. split.
      * intros Hk. apply IH1. unfold keys in Hk. simpl in Hk. lia.
      * intros key e Hk Herr.
        rewrite (IH2 key e); [reflexivity | exact Hk | exact Herr].
Qed.

(** C8: on an inactive breaker [UpdateLatestBucketsValue] succeeds and
    leaves the world as it was.  On an active one it issues the increments
    of the tiers' keys in tier order: when none fails, one per tier, and
    it succeeds; when the increment of tier [k] is the first to fail, it
    returns that error after the increments of the tiers [0..k] and issues
    nothing else, so that the store is the one the increments performed
    left behind. *)
Theorem UpdateLatestBucketsValue_spec {S : Type} (c : circuitBreaker S)
        (amount : Z) (w : World S) :
  (Active c = false -> UpdateLatestBucketsValue c amount w = (Return None, w))
  /\ (Active c = true ->
      let keys := tierKeys c (clock w) in
      let after (n : nat) := incremented c amount (take n keys) w in
      forall k,
        (forall j key, (j < k)%nat -> keys !! j = Some key ->
                       incrementError c amount key (after j) = None) ->
        (forall n,
           calls (after n)
           = calls w ++ map (fun key => CallIncrementInt key amount)
                            (take n keys)
           /\ store (after n)
              = fold_left
                  (fun s key =>
                     (Cache.IncrementInt (cb_Cache c) key amount s).2)
                  (take n keys) (store w))
        /\ (k = length (Buckets c) ->
            UpdateLatestBucketsValue c amount w
            = (Return None, after (length (Buckets c))))
        /\ (forall key e,
              keys !! k = Some key ->
              incrementError c amount key (after k) = Some e ->
              UpdateLatestBucketsValue c amount w
              = (Return (Some e), after (Datatypes.S k)))).
Proof.
  split.
  - intros Hc. unfold UpdateLatestBucketsValue. by rewrite Hc.
  - intros Hc keys after k Hok. split; [|split].
    + intros n. unfold after. split.
      * apply calls_incremented.
      * apply store_incremented.
    + intros Hk. unfold UpdateLatestBucketsValue. rewrite Hc. simpl.
      unfold mbind, M_bind, timeNowUTC.
      destruct (UpdateLatestBucketsValue_range_spec c (clock w) amount
                  (Buckets c) w k Hok) as [H1 _].
      rewrite H1 by (by rewrite length_map).
      unfold after. fold (tierKeys c (clock w)). fold keys.
      rewrite firstn_all2; [done|]. unfold keys, tierKeys.
      by rewrite length_map.
    + intros key e Hkey Herr.
      unfold UpdateLatestBucketsValue. rewrite Hc. simpl.
      unfold mbind, M_bind, timeNowUTC.
      destruct (UpdateLatestBucketsValue_range_spec c (clock w) amount
                  (Buckets c) w k Hok) as [_ H2].
      by rewrite (H2 key e Hkey Herr).
Qed.

Lemma UpdateLatestBucketsValue_spec_witness :
  UpdateLatestBucketsValue (SetActive Fixture.breakerMemTiers false) 100
    (Fixture.world0 Fixture.storeOneTier Fixture.may12_1012)
  = (Return None, Fixture.world0 Fixture.storeOneTier Fixture.may12_1012)
  /\ exists w',
       UpdateLatestBucketsValue Fixture.breakerMemTiers 100
         (Fixture.world0 Fixture.storeOneTier Fixture.may12_1012)
       = (Return (Some (StoreError "not found")), w')
       /\ calls w'
          = [CallIncrementInt "cb-test-24h-4h-202305120800" 100;
             CallIncrementInt "cb-test-24h-1h-202305121000" 100]
       /\ store w' = <["cb-test-24h-4h-202305120800" := Int 105]> ∅.
Proof.
  split.
  - apply (UpdateLatestBucketsValue_spec
             (SetActive Fixture.breakerMemTiers false)).
    reflexivity.
  - destruct (UpdateLatestBucketsValue_spec Fixture.breakerMemTiers 100
                (Fixture.world0 Fixture.storeOneTier Fixture.may12_1012))
      as [_ H].
    destruct (H eq_refl 1%nat) as (Hw & _ & Hfail).
    + intros j key Hj Hkey. destruct j as [|j]; [|lia].
      injection Hkey as <-. vm_compute. reflexivity.
    + eexists. split.
      * apply (Hfail "cb-test-24h-1h-202305121000"
                     (StoreError "not found")).
        -- vm_compute. reflexivity.
        -- vm_compute. reflexivity.
      * destruct (Hw 2%nat) as [Hcalls Hstore]. split.
        -- rewrite Hcalls. vm_compute. reflexivity.
        -- rewrite Hstore. vm_compute. reflexivity.
Defined.

(** ** The type assertion of [CalculateWindowValue] *)

Lemma cache_GetMulti_type {S : Type} (adapter : Adapter.t S)
      (keys : list string) (s : S) :
  exists m s', cache.GetMulti adapter keys s = (MapStringAny m, s').
Proof.
  unfold cache.GetMulti.
  destruct (cache.GetMulti_range adapter keys ∅ s) as [m s']. eauto.
Qed.

Lemma gocache_GetMulti_type {S : Type} (adapter : Adapter.t S)
      (keys : list string) (s : S) :
  exists m s', gocache.GetMulti adapter keys s = (MapStringAny m, s').
Proof.
  unfold gocache.GetMulti.
  destruct (gocache.GetMulti_range adapter keys ∅ s) as [m s']. eauto.
Qed.

(** C10: an active [CalculateWindowValue] returns a value only if the
    answer of the store's [GetMulti] is a map from string to int.  Behind
    either [cache] of [cache.go], whose [GetMulti] answers with a map from
    string to [interface{}], it never returns a value: as soon as
    [GenerateKeys] has returned its keys, the call reads the store once
    and panics on the type assertion. *)
Theorem CalculateWindowValue_type_assertion {S : Type}
        (c : circuitBreaker S) (fuel : nat) (w : World S) :
  Active c = true ->
  (forall value w',
     CalculateWindowValue fuel c w = (Return value, w') ->
     exists keys m,
       GenerateKeys fuel c (clock w) = Return keys
       /\ (Cache.GetMulti (cb_Cache c) keys (store w)).1 = MapStringInt m)
  /\ (forall (adapter : Adapter.t S) (expiration : GoTime.Duration),
        cb_Cache c = cache.NewCache adapter expiration
        \/ cb_Cache c = gocache.NewCache adapter expiration ->
        (forall value w',
           CalculateWindowValue fuel c w <> (Return value, w'))
        /\ (forall keys,
              GenerateKeys fuel c (clock w) = Return keys ->
              exists s,
                CalculateWindowValue fuel c w
                = (Panic TypeAssertion, record (CallGetMulti keys) s w))).
Proof.
  intros Hc.
  assert (Hrun : forall keys,
             GenerateKeys fuel c (clock w) = Return keys ->
             forall r s,
               Cache.GetMulti (cb_Cache c) keys (store w) = (r, s) ->
               CalculateWindowValue fuel c w
               = match assertMapStringInt r with
                 | Return m =>
                     (Return (map_fold (fun _ v total => GoInt.add total v)
                                0 m),
                      record (CallGetMulti keys) s w)
                 | Panic p => (Panic p, record (CallGetMulti keys) s w)
                 | Loop => (Loop, record (CallGetMulti keys) s w)
                 end).
  { intros keys Hk r s Hg. unfold CalculateWindowValue. rewrite Hc. simpl.
    unfold mbind, M_bind, timeNowUTC, lift, Cache_GetMulti.
    rewrite Hk, Hg. by destruct (assertMapStringInt r). }
  assert (Hstop : forall value w',
             CalculateWindowValue fuel c w = (Return value, w') ->
             exists keys, GenerateKeys fuel c (clock w) = Return keys).
  { intros value w' H. unfold CalculateWindowValue in H. rewrite Hc in H.
    simpl in H. unfold mbind, M_bind, timeNowUTC, lift in H.
    destruct (GenerateKeys fuel c (clock w)) as [keys| |]; [eauto | done..]. }
  split.
  - intros value w' H. destruct (Hstop _ _ H) as [keys Hk].
    exists keys.
    destruct (Cache.GetMulti (cb_Cache c) keys (store w)) as [r s] eqn:Hg.
    rewrite (Hrun keys Hk r s Hg) in H.
    destruct r; simpl in H; try done. eauto.
  - intros adapter expiration Hcache.
    assert (Hty : forall keys, exists m s,
               Cache.GetMulti (cb_Cache c) keys (store w)
               = (MapStringAny m, s)).
    { intros keys. destruct Hcache as [-> | ->]; simpl.
      - apply cache_GetMulti_type.
      - apply gocache_GetMulti_type. }
    split.
    + intros value w' H. destruct (Hstop _ _ H) as [keys Hk].
      destruct (Hty keys) as (m & s & Hg).
      rewrite (Hrun keys Hk _ s Hg) in H. done.
    + intros keys Hk. destruct (Hty keys) as (m & s & Hg).
      exists s. by rewrite (Hrun keys Hk _ s Hg).
Qed.

Lemma CalculateWindowValue_type_assertion_witness :
  (CalculateWindowValue 50 Fixture.breakerMem
     (Fixture.world0 ∅ Fixture.may12_1012)).1 = Panic TypeAssertion
  /\ (CalculateWindowValue 50 Fixture.breakerGoCache
        (Fixture.world0 ∅ Fixture.may12_1012)).1 = Panic TypeAssertion.
Proof.
  assert (K1 : exists keys,
             GenerateKeys 50 Fixture.breakerMem Fixture.may12_1012
             = Return keys) by (eexists; vm_compute; reflexivity).
  assert (K2 : exists keys,
             GenerateKeys 50 Fixture.breakerGoCache Fixture.may12_1012
             = Return keys) by (eexists; vm_compute; reflexivity).
  destruct K1 as [keys1 K1]. destruct K2 as [keys2 K2].
  split.
  - destruct (CalculateWindowValue_type_assertion Fixture.breakerMem 50
                (Fixture.world0 ∅ Fixture.may12_1012) eq_refl) as [_ H].
    destruct (H Fixture.memAdapter (GoInt.mul 5 Minute) (or_introl eq_refl))
      as [_ Hp].
    destruct (Hp keys1 K1) as [s ->]. reflexivity.
  - destruct (CalculateWindowValue_type_assertion Fixture.breakerGoCache 50
                (Fixture.world0 ∅ Fixture.may12_1012) eq_refl) as [_ H].
    destruct (H Fixture.memAdapter (GoInt.mul 5 Minute) (or_intror eq_refl))
      as [_ Hp].
    destruct (Hp keys2 K2) as [s ->]. reflexivity.
Defined.

(** * Further properties of the code *)

(** ** Key generation on arbitrary positive tiers *)

Lemma chain_elem e ks e' p :
  chain e ks e' -> p ∈ ks -> e' <= p.2 /\ p.2 + Duration p.1 <= e.
Proof.
  induction 1 as [|e b ks e' Hb Hc IH]; intros Hin.
  - by apply elem_of_nil in Hin.
  - apply chain_le in Hc as Hle.
    apply elem_of_cons in Hin as [->|Hin]; simpl; [lia|].
    specialize (IH Hin). lia.
Qed.

Lemma chain_disjoint e ks e' p q x :
  chain e ks e' -> p ∈ ks -> q ∈ ks -> covers p x -> covers q x -> p = q.
Proof.
  intros Hc Hp Hq Hcp Hcq.
  pose proof (chain_inside _ _ _ _ _ Hc Hp Hcp) as Hx.
  destruct (chain_cover _ _ _ _ Hc Hx) as (r & _ & _ & Hu).
  rewrite (Hu p Hp Hcp). by rewrite (Hu q Hq Hcq).
Qed.

(** Whatever the positive tiers and the window, [GenerateKeys] returns
    once the fuel covers the longest tier.  The bucket of the head key
    holds [now]; every other key stands for a bucket of a configured tier
    that lies between [startTime] and the head; no instant is in the
    buckets of two keys; and when [startTime] is not after the head, the
    keys leave out less than one bucket of the finest tier at the old end
    of the window. *)
Theorem GenerateKeys_positive_tiers {S : Type} (c : circuitBreaker S)
        (b0 : Bucket) (bs : list Bucket) (now : Time) :
  Buckets c = b0 :: bs ->
  Forall (fun b => positive64 (Duration b)) (b0 :: bs) ->
  MinInt < WindowDuration c <= MaxInt ->
  let head := Truncate now (Duration b0) in
  let startTime := Truncate (now - WindowDuration c) Minute in
  exists (ks : list Point) (n : nat),
    let pts := (b0, head) :: ks in
    (forall fuel, (n <= fuel)%nat ->
       GenerateKeys fuel c now = Return (map (keyOf c) pts))
    /\ covers (b0, head) now
    /\ (forall p, p ∈ ks ->
          p.1 ∈ Buckets c /\ startTime <= p.2
          /\ p.2 + Duration p.1 <= head)
    /\ (forall x p q, p ∈ pts -> q ∈ pts ->
          covers p x -> covers q x -> p = q)
    /\ (startTime <= head ->
        forall x, startTime + finest (Duration b0) bs <= x <= now ->
                  exists p, p ∈ pts /\ covers p x).
Proof.
  intros HB Hpos HW head startTime.
  set (W := WindowDuration c) in *.
  inversion Hpos as [|? ? [Hb0 Hb0max] Hbs]; subst.
  pose proof (Truncate_bounds now (Duration b0) Hb0) as Hhb. fold head in Hhb.
  pose proof (tierWalk_chain startTime (b0 :: bs) head Hpos) as Hchain.
  pose proof (tierWalk_buckets startTime (b0 :: bs) head) as Hbk.
  pose proof (tierWalk_stop_head startTime b0 bs head Hpos) as Hstop.
  pose proof (tierWalk_below startTime (b0 :: bs) head Hpos) as Hbelow.
  pose proof (keyPoints_range_run startTime (b0 :: bs) head [(b0, head)])
    as Hrun.
  destruct (tierWalk (b0 :: bs) startTime head) as [[ks e'] n] eqn:Ewalk.
  cbn [fst snd] in Hchain, Hbk, Hstop, Hbelow, Hrun.
  specialize (fun fuel => Hrun fuel Hpos).
  exists ks, n. cbv zeta. split; [|split; [|split; [|split]]].
  - intros fuel Hfuel.
    rewrite GenerateKeys_points, HB. unfold keyPoints.
    fold W. rewrite int_neg by done. unfold Add.
    replace (now + - W) with (now - W) by lia.
    fold startTime head. rewrite Hrun by done. reflexivity.
  - unfold covers. simpl. lia.
  - intros p Hp. rewrite Forall_forall in Hbk. rewrite HB.
    split; [by apply Hbk|].
    destruct (chain_elem _ _ _ _ Hchain Hp) as [H1 H2].
    split; [|done].
    destruct (Z_lt_ge_dec head startTime) as [Hlt|Hge].
    + specialize (Hbelow Hlt). injection Hbelow as -> ->.
      by apply elem_of_nil in Hp.
    + specialize (Hstop ltac:(lia)). lia.
  - intros x p q Hp Hq Hcp Hcq.
    apply elem_of_cons in Hp as [->|Hp]; apply elem_of_cons in Hq as [->|Hq].
    + done.
    + pose proof (chain_inside _ _ _ _ _ Hchain Hq Hcq).
      unfold covers in Hcp. simpl in Hcp. lia.
    + pose proof (chain_inside _ _ _ _ _ Hchain Hp Hcp).
      unfold covers in Hcq. simpl in Hcq. lia.
    + exact (chain_disjoint _ _ _ _ _ x Hchain Hp Hq Hcp Hcq).
  - intros Hle x Hx. specialize (Hstop Hle).
    destruct (Z_lt_ge_dec x head) as [Hlt|Hge].
    + destruct (chain_cover head ks e' x Hchain ltac:(lia))
        as (p & Hin & Hcov & _).
      exists p. split; [by apply elem_of_cons; right | done].
    + exists (b0, head). split; [by apply elem_of_cons; left|].
      unfold covers. simpl. lia.
Qed.

Lemma GenerateKeys_positive_tiers_witness :
  exists ks n,
    (forall fuel, (n <= fuel)%nat ->
       GenerateKeys fuel Fixture.breaker4h Fixture.may12_1012
       = Return (map (keyOf Fixture.breaker4h)
                     ((NewBucket (GoInt.mul 4 Hour),
                       Truncate Fixture.may12_1012 (GoInt.mul 4 Hour)) :: ks)))
    /\ forall p, p ∈ ks ->
         Truncate (Fixture.may12_1012 - GoInt.mul 24 Hour) Minute <= p.2.
Proof.
  destruct (GenerateKeys_positive_tiers Fixture.breaker4h
              (NewBucket (GoInt.mul 4 Hour)) [] Fixture.may12_1012)
    as (ks & n & Hrun & _ & Hin & _).
  - reflexivity.
  - repeat constructor; vm_compute; congruence.
  - vm_compute. split; [reflexivity | congruence].
  - exists ks, n. split; [exact Hrun|].
    intros p Hp. exact (proj1 (proj2 (Hin p Hp))).
Defined.

(** ** Key generation on a tier that is not positive *)

Lemma keyPoints_step_never bucket startTime :
  MinInt < Duration bucket <= 0 ->
  forall fuel endTime pts,
    startTime <= endTime - Duration bucket ->
    keyPoints_step fuel bucket startTime endTime pts = None.
Proof.
  intros Hd.
  assert (Hneg : GoInt.mul (-1) (Duration bucket) = - Duration bucket).
  { apply int_neg. unfold MaxInt. lia. }
  induction fuel as [|fuel IH]; intros e pts He; simpl; rewrite Hneg;
    unfold After, Add, Equal.
  - destruct (Z.ltb_spec startTime (e + - Duration bucket)); [done|].
    replace (e + - Duration bucket) with startTime by lia.
    by rewrite Z.eqb_refl.
  - assert (Hc : (startTime <? e + - Duration bucket)
                 || (e + - Duration bucket =? startTime) = true).
    { destruct (Z.ltb_spec startTime (e + - Duration bucket)); [done|].
      replace (e + - Duration bucket) with startTime by lia.
      by rewrite Z.eqb_refl. }
    rewrite Hc. apply IH. lia.
Qed.

Lemma keyPoints_step_floor bucket startTime bound :
  bound <= 0 ->
  forall fuel endTime pts e' pts',
    keyPoints_step fuel bucket startTime endTime pts = Some (e', pts') ->
    startTime <= endTime - bound -> startTime <= e' - bound.
Proof.
  intros Hb.
  induction fuel as [|fuel IH]; intros e pts e' pts'; simpl.
  - destruct (_ || _); [done|]. intros [= <- <-]. done.
  - destruct (After _ _ || Equal _ _) eqn:Hc.
    + intros Hs _. apply (IH _ _ _ _ Hs).
      unfold After, Equal in Hc. apply orb_true_iff in Hc as [Hc|Hc]; lia.
    + intros [= <- <-]. done.
Qed.

Lemma keyPoints_range_never startTime b post fuel :
  MinInt < Duration b <= 0 ->
  forall pre endTime pts,
    startTime <= endTime - Duration b ->
    keyPoints_range fuel (pre ++ b :: post) startTime endTime pts = Loop.
Proof.
  intros Hd. induction pre as [|b1 pre IH]; intros e pts He; simpl.
  - by rewrite (keyPoints_step_never b startTime Hd fuel e pts He).
  - destruct (keyPoints_step fuel b1 startTime e pts) as [[e1 pts1]|] eqn:E;
      [|done].
    apply IH.
    apply (keyPoints_step_floor b1 startTime (Duration b) ltac:(lia)
             fuel e pts e1 pts1 E He).
Qed.

(** A tier of zero or negative duration makes [GenerateKeys] loop for
    ever: when the window is at least as long as the first tier, no
    amount of fuel lets it return. *)
Theorem GenerateKeys_nonpositive_tier {S : Type} (c : circuitBreaker S)
        (pre : list Bucket) (b : Bucket) (post : list Bucket)
        (now : Time) (fuel : nat) :
  Buckets c = pre ++ b :: post ->
  Forall (fun b0 => positive64 (Duration b0)) pre ->
  MinInt < Duration b <= 0 ->
  MinInt < WindowDuration c <= MaxInt ->
  Duration (List.hd b pre) <= WindowDuration c ->
  GenerateKeys fuel c now = Loop.
Proof.
  intros HB Hpre Hd HW Hfirst.
  rewrite GenerateKeys_points, HB. unfold keyPoints.
  rewrite int_neg by done. unfold Add.
  replace (now + - WindowDuration c) with (now - WindowDuration c) by lia.
  pose proof (Truncate_bounds (now - WindowDuration c) Minute Minute_pos)
    as Hs.
  destruct pre as [|b0 pre]; cbn [List.hd] in Hfirst.
  - change ([] ++ b :: post) with (b :: post). cbv beta iota.
    change (b :: post) with ([] ++ b :: post).
    rewrite (keyPoints_range_never _ b post fuel Hd []); [done|].
    unfold Truncate at 2. destruct (Z.leb_spec (Duration b) 0); lia.
  - inversion Hpre as [|? ? [Hb0 _] _]; subst.
    change ((b0 :: pre) ++ b :: post) with (b0 :: (pre ++ b :: post)) at 1.
    cbv beta iota.
    rewrite (keyPoints_range_never _ b post fuel Hd (b0 :: pre)); [done|].
    pose proof (Truncate_bounds now (Duration b0) Hb0). lia.
Qed.

Lemma GenerateKeys_nonpositive_tier_witness :
  GenerateKeys 1000
    (NewCircuitBreaker insertionSort Fixture.emptyCache
       [NewBucket Hour; NewBucket 0] (GoInt.mul 24 Hour) "test"
       (GoInt.mul 24 Hour))
    Fixture.may12_1012
  = Loop.
Proof.
  apply (GenerateKeys_nonpositive_tier _ [NewBucket Hour] (NewBucket 0) []);
    [reflexivity | repeat constructor; vm_compute; congruence
     | vm_compute; split; [reflexivity | congruence]
     | vm_compute; split; [reflexivity | congruence]
     | vm_compute; congruence].
Defined.

(** ** Keys read and keys written *)

Lemma keyPoints_step_prefix bucket startTime :
  forall fuel endTime pts e' pts',
    keyPoints_step fuel bucket startTime endTime pts = Some (e', pts') ->
    exists ks, pts' = pts ++ ks.
Proof.
  induction fuel as [|fuel IH]; intros e pts e' pts'; simpl.
  - destruct (_ || _); [done|]. intros [= <- <-].
    exists []. by rewrite app_nil_r.
  - destruct (_ || _).
    + intros Hs. destruct (IH _ _ _ _ Hs) as [ks ->].
      eexists. by rewrite <- app_assoc.
    + intros [= <- <-]. exists []. by rewrite app_nil_r.
Qed.

Lemma keyPoints_range_prefix startTime fuel :
  forall buckets endTime pts r,
    keyPoints_range fuel buckets startTime endTime pts = Return r ->
    exists ks, r = pts ++ ks.
Proof.
  induction buckets as [|b bs IH]; intros e pts r; simpl.
  - intros [= <-]. exists []. by rewrite app_nil_r.
  - destruct (keyPoints_step fuel b startTime e pts) as [[e1 pts1]|] eqn:E;
      [|done].
    intros Hr. destruct (keyPoints_step_prefix _ _ _ _ _ _ _ E) as [ks1 ->].
    destruct (IH _ _ _ Hr) as [ks ->].
    eexists. by rewrite <- app_assoc.
Qed.

(** Whenever [GenerateKeys] returns, the first key it returns is the
    first key [UpdateLatestBucketsValue] increments at the same instant:
    the counter of the coarsest tier that holds [now]. *)
Theorem GenerateKeys_head_is_written {S : Type} (c : circuitBreaker S)
        (fuel : nat) (now : Time) (keys : list string) :
  GenerateKeys fuel c now = Return keys ->
  keys <> [] /\ head keys = head (tierKeys c now).
Proof.
  rewrite GenerateKeys_points. unfold keyPoints, tierKeys.
  destruct (Buckets c) as [|b0 bs]; [done|].
  destruct (keyPoints_range _ _ _ _ _) as [r| |] eqn:E; simpl; try done.
  intros [= <-].
  destruct (keyPoints_range_prefix _ _ _ _ _ _ E) as [ks ->]. simpl.
  split; [done | reflexivity].
Qed.

Lemma GenerateKeys_head_is_written_witness :
  head Fixture.expectedKeys
  = head (tierKeys Fixture.breaker24h Fixture.may12_1012).
Proof.
  apply (GenerateKeys_head_is_written Fixture.breaker24h 9
           Fixture.may12_1012 Fixture.expectedKeys).
  vm_compute. reflexivity.
Defined.

(** When every tier is positive and divides the tier before it, each key
    [GenerateKeys] returns at [now] is a key that
    [UpdateLatestBucketsValue] increments at some instant not after
    [now]: the read path asks for no counter that the write path cannot
    have written. *)
Theorem GenerateKeys_reads_written_keys {S : Type} (c : circuitBreaker S)
        (b0 : Bucket) (bs : list Bucket) (now : Time) :
  Buckets c = b0 :: bs ->
  Forall (fun b => positive64 (Duration b)) (b0 :: bs) ->
  divChain (Duration b0) bs ->
  MinInt < WindowDuration c <= MaxInt ->
  exists (keys : list string) (n : nat),
    (forall fuel, (n <= fuel)%nat -> GenerateKeys fuel c now = Return keys)
    /\ forall key, key ∈ keys ->
         exists t, t <= now /\ key ∈ tierKeys c t.
Proof.
  intros HB Hpos Hdiv HW.
  set (W := WindowDuration c) in *.
  set (head := Truncate now (Duration b0)).
  set (startTime := Truncate (now - W) Minute).
  inversion Hpos as [|? ? [Hb0 Hb0max] Hbs]; subst.
  assert (Hhead : (Duration b0 | head)) by (by apply Truncate_divide).
  pose proof (Truncate_bounds now (Duration b0) Hb0) as Hhb. fold head in Hhb.
  assert (Hdiv' : divChain (Duration b0) (b0 :: bs)).
  { split; [apply Z.mod_same; lia | done]. }
  pose proof (tierWalk_chain startTime (b0 :: bs) head Hpos) as Hchain.
  pose proof (tierWalk_buckets startTime (b0 :: bs) head) as Hbk.
  destruct (tierWalk_aligned startTime (b0 :: bs) (Duration b0) head
              Hpos Hb0 Hhead Hdiv') as [Hal _].
  pose proof (keyPoints_range_run startTime (b0 :: bs) head [(b0, head)])
    as Hrun.
  destruct (tierWalk (b0 :: bs) startTime head) as [[ks e'] n] eqn:Ewalk.
  cbn [fst snd] in Hchain, Hbk, Hal, Hrun.
  specialize (fun fuel => Hrun fuel Hpos).
  exists (map (keyOf c) ((b0, head) :: ks)), n. split.
  - intros fuel Hfuel.
    rewrite GenerateKeys_points, HB. unfold keyPoints.
    fold W. rewrite int_neg by done. unfold Add.
    replace (now + - W) with (now - W) by lia.
    fold startTime head. rewrite Hrun by done. reflexivity.
  - intros key Hkey. apply list_elem_of_fmap in Hkey as (p & -> & Hp).
    assert (Hpa : aligned p /\ p.1 ∈ b0 :: bs /\ p.2 <= now
                  /\ 0 < Duration p.1).
    { apply elem_of_cons in Hp as [->|Hp]; simpl.
      - split; [unfold aligned; simpl; by apply mod0_divide|].
        split; [by apply elem_of_cons; left|]. lia.
      - rewrite Forall_forall in Hal, Hbk.
        split; [by apply Hal|]. split; [by apply Hbk|].
        destruct (chain_elem _ _ _ _ Hchain Hp) as [_ H2].
        specialize (Hbk p Hp). rewrite Forall_forall in Hpos.
        destruct (Hpos _ Hbk) as [Hd _]. split; [|exact Hd].
        unfold Time in *. lia. }
    destruct Hpa as (Ha & Hb & Ht & Hd).
    exists p.2. split; [done|].
    unfold tierKeys. rewrite HB. apply list_elem_of_fmap.
    exists p.1. split; [|done].
    unfold keyOf. f_equal. rewrite Truncate_pos by done.
    unfold aligned in Ha. lia.
Qed.

Lemma GenerateKeys_reads_written_keys_witness :
  exists keys n,
    (forall fuel, (n <= fuel)%nat ->
       GenerateKeys fuel Fixture.breaker24h Fixture.may12_1012 = Return keys)
    /\ forall key, key ∈ keys ->
         exists t, t <= Fixture.may12_1012
                   /\ key ∈ tierKeys Fixture.breaker24h t.
Proof.
  apply (GenerateKeys_reads_written_keys Fixture.breaker24h
           (NewBucket (GoInt.mul 4 Hour))
           [NewBucket (GoInt.mul 1 Hour); NewBucket (GoInt.mul 5 Minute);
            NewBucket (GoInt.mul 1 Minute)]
           Fixture.may12_1012).
  - reflexivity.
  - repeat constructor; vm_compute; congruence.
  - vm_compute. tauto.
  - vm_compute. split; [reflexivity | congruence].
Defined.

(** ** The sum of the window *)

Lemma map_fold_add_wrap (m : gmap string Z) :
  map_fold (fun _ v total => GoInt.add total v) 0 m = wrap64 (sumValues m).
Proof.
  unfold sumValues. rewrite !map_fold_foldr.
  induction (map_to_list m) as [|[k v] l IH]; simpl; [reflexivity|].
  rewrite IH. unfold GoInt.add. rewrite wrap64_add_l. f_equal. lia.
Qed.

(** On an active breaker, once [GenerateKeys] has returned and the store
    has answered [GetMulti] with a map from string to int,
    [CalculateWindowValue] reads the store that one time and returns the
    sum of all the values of the answer reduced to 64 bits, whatever their
    keys; its value is the exact sum whenever that fits an [int], and 0
    for an empty answer. *)
Theorem CalculateWindowValue_sum {S : Type} (c : circuitBreaker S)
        (fuel : nat) (w : World S) (keys : list string)
        (m : gmap string Z) (s : S) :
  Active c = true ->
  GenerateKeys fuel c (clock w) = Return keys ->
  Cache.GetMulti (cb_Cache c) keys (store w) = (MapStringInt m, s) ->
  CalculateWindowValue fuel c w
  = (Return (wrap64 (sumValues m)), record (CallGetMulti keys) s w)
  /\ (in_range (sumValues m) -> wrap64 (sumValues m) = sumValues m)
  /\ (m = ∅ -> wrap64 (sumValues m) = 0).
Proof.
  intros Hc Hk Hg. split; [|split].
  - unfold CalculateWindowValue. rewrite Hc. simpl.
    unfold mbind, M_bind, timeNowUTC, lift, Cache_GetMulti.
    rewrite Hk, Hg. simpl. unfold mret, M_ret.
    by rewrite map_fold_add_wrap.
  - apply wrap64_id.
  - intros ->. unfold sumValues. by rewrite map_fold_empty.
Qed.

Lemma CalculateWindowValue_sum_witness :
  (CalculateWindowValue 9 Fixture.breakerMock
     (Fixture.world0 tt Fixture.may12_1012)).1
  = Return (wrap64 (sumValues Fixture.resMap))
  /\ sumValues Fixture.resMap = 80000.
Proof.
  split; [|vm_compute; reflexivity].
  destruct (CalculateWindowValue_sum Fixture.breakerMock 9
              (Fixture.world0 tt Fixture.may12_1012)
              Fixture.expectedKeys Fixture.resMap tt) as [-> _].
  - reflexivity.
  - vm_compute. reflexivity.
  - reflexivity.
  - reflexivity.
Defined.

(** ** Threshold checks and Go's integers *)

Lemma IsExceedingThreshold_value {S : Type} (c : circuitBreaker S)
      (fuel : nat) (amount : Z) (w : World S) (value : Z) (w' : World S) :
  Active c = true ->
  CalculateWindowValue fuel c w = (Return value, w') ->
  IsExceedingThreshold fuel c amount w
  = (Return (Threshold c <=? GoInt.add value amount), w').
Proof.
  intros Hc Hv. unfold IsExceedingThreshold. rewrite Hc. simpl.
  by rewrite (bind_Return _ _ _ _ _ Hv).
Qed.

(** As long as the sums fit an [int], [IsExceedingThreshold] is monotone
    in the amount: in one and the same world, a larger amount exceeds
    whenever a smaller one does. *)
Theorem IsExceedingThreshold_monotone {S : Type} (c : circuitBreaker S)
        (fuel : nat) (amount amount' : Z) (w : World S)
        (value : Z) (w' : World S) :
  Active c = true ->
  CalculateWindowValue fuel c w = (Return value, w') ->
  amount <= amount' ->
  in_range (value + amount) -> in_range (value + amount') ->
  IsExceedingThreshold fuel c amount w = (Return true, w') ->
  IsExceedingThreshold fuel c amount' w = (Return true, w').
Proof.
  intros Hc Hv Hle Hr Hr'.
  rewrite !(IsExceedingThreshold_value c fuel _ w value w' Hc Hv).
  unfold GoInt.add. rewrite !wrap64_id by done.
  intros [= H]. do 2 f_equal. apply Z.leb_le in H. apply Z.leb_le. lia.
Qed.

Lemma IsExceedingThreshold_monotone_witness :
  IsExceedingThreshold 9 Fixture.breakerMock 25000
    (Fixture.world0 tt Fixture.may12_1012)
  = (Return true,
     record (CallGetMulti Fixture.expectedKeys) tt
       (Fixture.world0 tt Fixture.may12_1012)).
Proof.
  apply (IsExceedingThreshold_monotone Fixture.breakerMock 9 20000 25000
           (Fixture.world0 tt Fixture.may12_1012) 80000).
  - reflexivity.
  - vm_compute. reflexivity.
  - lia.
  - vm_compute. split; congruence.
  - vm_compute. split; congruence.
  - vm_compute. reflexivity.
Defined.

(** When the window value and the amount are [int]s whose sum overflows,
    the sum wraps to a negative number and [IsExceedingThreshold] answers
    false for every threshold from -1 upwards, although the true sum
    exceeds every [int]. *)
Theorem IsExceedingThreshold_overflow {S : Type} (c : circuitBreaker S)
        (fuel : nat) (amount : Z) (w : World S)
        (value : Z) (w' : World S) :
  Active c = true ->
  CalculateWindowValue fuel c w = (Return value, w') ->
  in_range value -> in_range amount ->
  MaxInt < value + amount ->
  -1 <= Threshold c ->
  IsExceedingThreshold fuel c amount w = (Return false, w').
Proof.
  intros Hc Hv Hrv Hra Hov Ht.
  rewrite (IsExceedingThreshold_value c fuel _ w value w' Hc Hv).
  do 2 f_equal. apply Z.leb_gt.
  unfold in_range, MinInt, MaxInt in *. unfold GoInt.add, wrap64.
  replace (value + amount + 2 ^ 63)
    with ((value + amount - 2 ^ 63) + 1 * 2 ^ 64) by lia.
  rewrite Z.mod_add by lia. rewrite Z.mod_small by lia. lia.
Qed.

Lemma IsExceedingThreshold_overflow_witness :
  IsExceedingThreshold 9 Fixture.breakerMock MaxInt
    (Fixture.world0 tt Fixture.may12_1012)
  = (Return false,
     record (CallGetMulti Fixture.expectedKeys) tt
       (Fixture.world0 tt Fixture.may12_1012)).
Proof.
  apply (IsExceedingThreshold_overflow Fixture.breakerMock 9 MaxInt
           (Fixture.world0 tt Fixture.may12_1012) 80000).
  - reflexivity.
  - vm_compute. reflexivity.
  - vm_compute. split; congruence.
  - vm_compute. split; congruence.
  - vm_compute. reflexivity.
  - vm_compute. congruence.
Defined.

(** A breaker fresh from [NewCircuitBreaker] is active with the
    threshold [math.MaxInt]: as long as nobody sets a threshold it reports
    exceeding only when the sum is exactly [math.MaxInt]. *)
Theorem IsExceedingThreshold_fresh {S : Type}
        (sortSlice : (Bucket -> Bucket -> bool) -> list Bucket -> list Bucket)
        (cache : Cache.t S) (buckets : list Bucket)
        (cacheTTL : GoTime.Duration) (featureName : string)
        (windowDuration : GoTime.Duration)
        (fuel : nat) (amount : Z) (w : World S) (value : Z) (w' : World S) :
  let c := NewCircuitBreaker sortSlice cache buckets cacheTTL featureName
             windowDuration in
  CalculateWindowValue fuel c w = (Return value, w') ->
  in_range (value + amount) ->
  IsExceedingThreshold fuel c amount w
  = (Return (bool_decide (value + amount = MaxInt)), w').
Proof.
  intros c Hv Hr.
  rewrite (IsExceedingThreshold_value c fuel _ w value w' eq_refl Hv).
  unfold GoInt.add. rewrite wrap64_id by done.
  change (Threshold c) with MaxInt. do 2 f_equal.
  unfold in_range in Hr.
  destruct (Z.leb_spec MaxInt (value + amount)).
  - rewrite bool_decide_eq_true_2; [done | lia].
  - rewrite bool_decide_eq_false_2; [done | lia].
Qed.

Lemma IsExceedingThreshold_fresh_witness :
  (IsExceedingThreshold 9
     (NewCircuitBreaker insertionSort (Fixture.mockCache Fixture.resMap)
        Fixture.fourTiers (GoInt.mul 24 Hour) "test" (GoInt.mul 24 Hour))
     20000 (Fixture.world0 tt Fixture.may12_1012)).1
  = Return false.
Proof.
  assert (E : exists w',
             CalculateWindowValue 9
               (NewCircuitBreaker insertionSort
                  (Fixture.mockCache Fixture.resMap) Fixture.fourTiers
                  (GoInt.mul 24 Hour) "test" (GoInt.mul 24 Hour))
               (Fixture.world0 tt Fixture.may12_1012)
             = (Return 80000, w')) by (eexists; vm_compute; reflexivity).
  destruct E as [w' E].
  rewrite (IsExceedingThreshold_fresh insertionSort
             (Fixture.mockCache Fixture.resMap) Fixture.fourTiers
             (GoInt.mul 24 Hour) "test" (GoInt.mul 24 Hour) 9 20000
             (Fixture.world0 tt Fixture.may12_1012) 80000 w' E).
  - reflexivity.
  - vm_compute. split; congruence.
Defined.

(** ** Flags that hold no boolean *)

(** On an active breaker, when the store answers the read of a flag
    without error but with a value that is not a boolean (a nil value
    included), [GetTrip] and [GetTripWarning] panic on the type assertion,
    after that one read. *)
Theorem flags_read_not_bool {S : Type} (c : circuitBreaker S) (w : World S) :
  Active c = true ->
  Forall
    (fun '(get, key) =>
       forall object s,
         Cache.Get (cb_Cache c) key (store w) = ((object, None), s) ->
         (forall b, object <> Bool b) ->
         get w = (Panic TypeAssertion, record (CallGet key) s w))
    [(GetTrip c, TripKey c); (GetTripWarning c, WarningAlertKey c)].
Proof.
  intros Hc.
  assert (H : forall key object s,
             Cache.Get (cb_Cache c) key (store w) = ((object, None), s) ->
             (forall b, object <> Bool b) ->
             getBoolCache c key w
             = (Panic TypeAssertion, record (CallGet key) s w)).
  { intros key object s Hget Hnb. unfold getBoolCache. rewrite Hc. simpl.
    unfold mbind, M_bind, Cache_Get. rewrite Hget.
    destruct object; try done. by destruct (Hnb b). }
  apply Forall_cons. split; [|apply Forall_cons; split; [|constructor]].
  - apply H.
  - apply H.
Qed.

Lemma flags_read_not_bool_witness :
  (GetTrip Fixture.breakerMem
     (Fixture.world0 (<["cb-trip-test_window-168h" := Int 1]> ∅)
        Fixture.may12_1012)).1
  = Panic TypeAssertion.
Proof.
  pose proof (flags_read_not_bool Fixture.breakerMem
                (Fixture.world0 (<["cb-trip-test_window-168h" := Int 1]> ∅)
                   Fixture.may12_1012) eq_refl) as H.
  apply Forall_cons in H as [H _].
  rewrite (H (Int 1) (<["cb-trip-test_window-168h" := Int 1]> ∅)).
  - reflexivity.
  - reflexivity.
  - intros b. discriminate.
Defined.

(** ** [GetMulti] of the two [cache] structs *)

Lemma cache_GetMulti_range_lookup {S : Type} (adapter : Adapter.t S) :
  (forall k s, (Adapter.Get adapter k s).2 = s) ->
  forall keys acc s,
  exists m,
    cache.GetMulti_range adapter keys acc s = (m, s)
    /\ forall k,
         m !! k = if decide (k ∈ keys)
                  then match present (Adapter.Get adapter k s).1.1 with
                       | Some v => Some v
                       | None => acc !! k
                       end
                  else acc !! k.
Proof.
  intros Hro. induction keys as [|key keys IH]; intros acc s.
  - exists acc. split; [done|]. intros k.
    destruct (decide (k ∈ [])) as [H|H]; [by apply elem_of_nil in H | done].
  - simpl. pose proof (Hro key s) as Hs.
    destruct (Adapter.Get adapter key s) as [[object found] s1] eqn:Hget.
    simpl in Hs. subst s1.
    assert (Hcase : exists acc',
               (match object with
                | Nil => cache.GetMulti_range adapter keys acc s
                | _ => cache.GetMulti_range adapter keys
                         (<[key := object]> acc) s
                end) = cache.GetMulti_range adapter keys acc' s
               /\ forall k, acc' !! k
                            = if decide (k = key)
                              then match present object with
                                   | Some v => Some v
                                   | None => acc !! k
                                   end
                              else acc !! k).
    { destruct object;
        [exists acc; split; [done|]; intros k; by destruct (decide (k = key))
        | eexists; split; [reflexivity|]; intros k; simpl;
          destruct (decide (k = key)) as [->|];
          [by rewrite lookup_insert_eq | by rewrite lookup_insert_ne]..]. }
    destruct Hcase as (acc' & -> & Hacc).
    destruct (IH acc' s) as (m & Hm & Hlook).
    exists m. split; [done|]. intros k. rewrite Hlook, Hacc.
    destruct (decide (k = key)) as [->|Hne].
    + rewrite Hget. simpl.
      rewrite (decide_True (P := key ∈ key :: keys)) by (by left).
      destruct (decide (key ∈ keys)); [|done].
      by destruct (present object).
    + destruct (decide (k ∈ keys)) as [Hin|Hnin].
      * by rewrite (decide_True (P := k ∈ key :: keys)) by (by right).
      * rewrite (decide_False (P := k ∈ key :: keys)); [done|].
        intros H. apply elem_of_cons in H as [?|?]; done.
Qed.

(** [GetMulti] of the [cache] over an [Adapter] whose [Get] leaves the
    store as it is: the answer is a map from string to [interface{}] that
    holds, for each requested key, the value the adapter reads, and
    nothing for a key that was not requested or whose value reads as nil;
    the store is unchanged. *)
Theorem cache_GetMulti_lookup {S : Type} (adapter : Adapter.t S)
        (keys : list string) (s : S) :
  (forall k s, (Adapter.Get adapter k s).2 = s) ->
  exists m,
    cache.GetMulti adapter keys s = (MapStringAny m, s)
    /\ forall k,
         m !! k = if decide (k ∈ keys)
                  then present (Adapter.Get adapter k s).1.1
                  else None.
Proof.
  intros Hro.
  destruct (cache_GetMulti_range_lookup adapter Hro keys ∅ s)
    as (m & Hm & Hlook).
  exists m. unfold cache.GetMulti. rewrite Hm. split; [done|].
  intros k. rewrite Hlook, lookup_empty.
  destruct (decide (k ∈ keys)); [|done]. by destruct (present _).
Qed.

Lemma memAdapter_Get_store k (s : gmap string any) :
  (Adapter.Get Fixture.memAdapter k s).2 = s.
Proof. simpl. by destruct (s !! k). Qed.

Lemma cache_GetMulti_lookup_witness :
  exists m,
    cache.GetMulti Fixture.memAdapter ["test-key"; "other"]
      (<["test-key" := Int 10]> ∅)
    = (MapStringAny m, <["test-key" := Int 10]> ∅)
    /\ m !! "test-key" = Some (Int 10) /\ m !! "other" = None.
Proof.
  destruct (cache_GetMulti_lookup Fixture.memAdapter ["test-key"; "other"]
              (<["test-key" := Int 10]> ∅) memAdapter_Get_store)
    as (m & Hm & Hlook).
  exists m. split; [exact Hm|]. split.
  - rewrite Hlook. reflexivity.
  - rewrite Hlook. reflexivity.
Defined.

Lemma gocache_GetMulti_range_lookup {S : Type} (adapter : Adapter.t S) :
  (forall k s, (Adapter.Get adapter k s).2 = s) ->
  forall keys acc s,
  exists m,
    gocache.GetMulti_range adapter keys acc s = (m, s)
    /\ forall k,
         m !! k = if decide (k ∈ keys)
                  then Some (Adapter.Get adapter k s).1.1
                  else acc !! k.
Proof.
  intros Hro. induction keys as [|key keys IH]; intros acc s.
  - exists acc. split; [done|]. intros k.
    destruct (decide (k ∈ [])) as [H|H]; [by apply elem_of_nil in H | done].
  - simpl. pose proof (Hro key s) as Hs.
    destruct (Adapter.Get adapter key s) as [[object found] s1] eqn:Hget.
    simpl in Hs. subst s1.
    destruct (IH (<[key := object]> acc) s) as (m & Hm & Hlook).
    exists m. split; [done|]. intros k. rewrite Hlook.
    destruct (decide (k = key)) as [->|Hne].
    + rewrite Hget. simpl.
      rewrite (decide_True (P := key ∈ key :: keys)) by (by left).
      destruct (decide (key ∈ keys)); [done|]. by rewrite lookup_insert_eq.
    + rewrite lookup_insert_ne by done.
      destruct (decide (k ∈ keys)) as [Hin|Hnin].
      * by rewrite (decide_True (P := k ∈ key :: keys)) by (by right).
      * rewrite (decide_False (P := k ∈ key :: keys)); [done|].
        intros H. apply elem_of_cons in H as [?|?]; done.
Qed.

(** [GetMulti] of the [cache] that holds the go-cache store, under the
    same condition: the answer holds every requested key, with the value
    read for it, nil for a key the store does not hold; a key that was
    not requested is not in it. *)
Theorem gocache_GetMulti_lookup {S : Type} (adapter : Adapter.t S)
        (keys : list string) (s : S) :
  (forall k s, (Adapter.Get adapter k s).2 = s) ->
  exists m,
    gocache.GetMulti adapter keys s = (MapStringAny m, s)
    /\ forall k,
         m !! k = if decide (k ∈ keys)
                  then Some (Adapter.Get adapter k s).1.1
                  else None.
Proof.
  intros Hro.
  destruct (gocache_GetMulti_range_lookup adapter Hro keys ∅ s)
    as (m & Hm & Hlook).
  exists m. unfold gocache.GetMulti. rewrite Hm. split; [done|].
  intros k. rewrite Hlook, lookup_empty. done.
Qed.

Lemma gocache_GetMulti_lookup_witness :
  exists m,
    gocache.GetMulti Fixture.memAdapter ["test-key"; "other"]
      (<["test-key" := Int 10]> ∅)
    = (MapStringAny m, <["test-key" := Int 10]> ∅)
    /\ m !! "test-key" = Some (Int 10) /\ m !! "other" = Some Nil.
Proof.
  destruct (gocache_GetMulti_lookup Fixture.memAdapter ["test-key"; "other"]
              (<["test-key" := Int 10]> ∅) memAdapter_Get_store)
    as (m & Hm & Hlook).
  exists m. split; [exact Hm|]. split.
  - rewrite Hlook. reflexivity.
  - rewrite Hlook. reflexivity.
Defined.

(** ** A flag written and read back *)

Lemma cache_Get_Set {S : Type} (adapter : Adapter.t S)
      (expiration : GoTime.Duration) (cache : Cache.t S) :
  cache = cache.NewCache adapter expiration
  \/ cache = gocache.NewCache adapter expiration ->
  (forall k v d s,
     Adapter.Get adapter k (Adapter.Set_ adapter k v d s)
     = ((v, true), Adapter.Set_ adapter k v d s)) ->
  forall key value ttl s,
    let s1 := Adapter.Set_ adapter key value
                (if 0 <? ttl then ttl else expiration) s in
    Cache.Set_ cache key value ttl s = s1
    /\ Cache.Get cache key s1 = ((value, None), s1).
Proof.
  intros Hcache Hlaw key value ttl s s1.
  destruct Hcache as [-> | ->]; (split; [reflexivity|]); subst s1; simpl;
    unfold cache.Get, gocache.Get; by rewrite Hlaw.
Qed.

(** Behind either [cache] of [cache.go], over an adapter that reads back
    what was just set: on an active breaker [UpdateTrip] hands the flag to
    the adapter with the TTL [CacheTTL], or with the expiration of the
    cache when [CacheTTL] is not positive, and a [GetTrip] that follows
    returns the flag with no error; [UpdateTripWarning] and
    [GetTripWarning] do the same at the warning key, with the same
    TTL. *)
Theorem flags_written_then_read {S : Type} (c : circuitBreaker S)
        (adapter : Adapter.t S) (expiration : GoTime.Duration)
        (isTripped : bool) (w : World S) :
  Active c = true ->
  cb_Cache c = cache.NewCache adapter expiration
  \/ cb_Cache c = gocache.NewCache adapter expiration ->
  (forall k v d s,
     Adapter.Get adapter k (Adapter.Set_ adapter k v d s)
     = ((v, true), Adapter.Set_ adapter k v d s)) ->
  Forall
    (fun '(update, get, key) =>
       let s1 := Adapter.Set_ adapter key (Bool isTripped)
                   (if 0 <? CacheTTL c then CacheTTL c else expiration)
                   (store w) in
       let w1 := record (CallSet key (Bool isTripped) (CacheTTL c)) s1 w in
       update w = (Return tt, w1)
       /\ get w1 = (Return (isTripped, None), record (CallGet key) s1 w1))
    [(UpdateTrip c isTripped, GetTrip c, TripKey c);
     (UpdateTripWarning c isTripped, GetTripWarning c, WarningAlertKey c)].
Proof.
  intros Hc Hcache Hlaw.
  assert (H : forall key expiration',
             let s1 := Adapter.Set_ adapter key (Bool isTripped)
                         (if 0 <? CacheTTL c then CacheTTL c else expiration)
                         (store w) in
             let w1 := record (CallSet key (Bool isTripped) (CacheTTL c))
                         s1 w in
             updateBoolCache c isTripped key expiration' w = (Return tt, w1)
             /\ getBoolCache c key w1
                = (Return (isTripped, None), record (CallGet key) s1 w1)).
  { intros key expiration' s1 w1.
    destruct (cache_Get_Set adapter expiration (cb_Cache c) Hcache Hlaw
                key (Bool isTripped) (CacheTTL c) (store w)) as [Hset Hget].
    fold s1 in Hset, Hget. split.
    - rewrite updateBoolCache_active by done. unfold w1. by rewrite Hset.
    - unfold getBoolCache. rewrite Hc. simpl.
      unfold mbind, M_bind, Cache_Get. simpl store. by rewrite Hget. }
  apply Forall_cons. split; [|apply Forall_cons; split; [|constructor]].
  - apply (H (TripKey c)).
  - apply (H (WarningAlertKey c)).
Qed.

Lemma memAdapter_Get_Set k v d (s : gmap string any) :
  Adapter.Get Fixture.memAdapter k (Adapter.Set_ Fixture.memAdapter k v d s)
  = ((v, true), Adapter.Set_ Fixture.memAdapter k v d s).
Proof. simpl. by rewrite lookup_insert_eq. Qed.

Lemma flags_written_then_read_witness :
  (GetTripWarning Fixture.breakerMem
     (UpdateTripWarning Fixture.breakerMem true
        (Fixture.world0 ∅ Fixture.may12_1012)).2).1
  = Return (true, None).
Proof.
  pose proof (flags_written_then_read Fixture.breakerMem Fixture.memAdapter
                (GoInt.mul 5 Minute) true
                (Fixture.world0 ∅ Fixture.may12_1012)
                eq_refl (or_introl eq_refl) memAdapter_Get_Set) as H.
  apply Forall_cons in H as [_ H]. apply Forall_cons in H as [[Hu Hg] _].
  rewrite Hu. cbn [snd]. rewrite Hg. reflexivity.
Defined.

(** ** Names of buckets and windows *)

Lemma string_of_uint_digits d :
  allDigits (NilEmpty.string_of_uint d) = true.
Proof. induction d; simpl; auto. Qed.

Lemma fmtInt_digits v : allDigits (fmtInt v) = true /\ fmtInt v <> EmptyString.
Proof.
  unfold fmtInt, NilZero.string_of_uint.
  destruct (N.to_uint (Z.to_N v)) as [|u|u|u|u|u|u|u|u|u|u];
    (split; [|discriminate]);
    first [reflexivity | exact (string_of_uint_digits u)].
Qed.

Lemma digitsPrefix_app ds a rest :
  allDigits ds = true -> isDigit a = false ->
  digitsPrefix (ds +:+ String a rest) = (ds, String a rest).
Proof.
  intros Hds Ha. induction ds as [|x ds IH]; simpl.
  - by rewrite Ha.
  - simpl in Hds. apply andb_true_iff in Hds as [Hx Hds].
    rewrite Hx, (IH Hds). done.
Qed.

Lemma FindName_unit ds a rest :
  allDigits ds = true -> ds <> EmptyString -> isDigit a = false ->
  FindName (ds +:+ String a rest)
  = if (Ascii.eqb a "h" || Ascii.eqb a "m")%bool
    then ds +:+ String a EmptyString else EmptyString.
Proof.
  intros Hds Hne Ha. unfold FindName.
  rewrite (digitsPrefix_app ds a rest Hds Ha).
  destruct ds; [done | reflexivity].
Qed.

Lemma fmtFrac_snd prec :
  forall v print acc,
    (fmtFrac prec v print acc).2 = v / 10 ^ Z.of_nat prec.
Proof.
  induction prec as [|p IH]; intros v print acc.
  - simpl. by rewrite Z.div_1_r.
  - cbn [fmtFrac]. cbv zeta. rewrite IH.
    rewrite Nat2Z.inj_succ, Z.pow_succ_r by lia.
    rewrite Z.div_div by lia. done.
Qed.

Lemma fmtFrac_fst_printing prec :
  forall v acc, exists r, (fmtFrac prec v true acc).1 = String "." r.
Proof.
  induction prec as [|p IH]; intros v acc; simpl; [eauto|]. apply IH.
Qed.

Lemma fmtFrac_fst_shape prec :
  forall v acc,
    (fmtFrac prec v false acc).1 = acc
    \/ exists r, (fmtFrac prec v false acc).1 = String "." r.
Proof.
  induction prec as [|p IH]; intros v acc; simpl; [by left|].
  destruct (v mod 10 =? 0); simpl; [apply IH|].
  right. apply fmtFrac_fst_printing.
Qed.

Lemma fmtFrac_fst_zero prec :
  forall v acc,
    (10 ^ Z.of_nat prec | v) -> (fmtFrac prec v false acc).1 = acc.
Proof.
  induction prec as [|p IH]; intros v acc Hv; simpl; [done|].
  rewrite Nat2Z.inj_succ, Z.pow_succ_r in Hv by lia.
  destruct Hv as [k ->].
  replace (k * (10 * 10 ^ Z.of_nat p)) with ((k * 10 ^ Z.of_nat p) * 10)
    by lia.
  rewrite Z.mod_mul, Z.div_mul by lia. simpl.
  apply IH. by exists k.
Qed.

Lemma string_append_assoc (a b c : string) :
  (a +:+ b) +:+ c = a +:+ (b +:+ c).
Proof.
  induction a as [|x a IH]; [reflexivity|].
  change (String x ((a +:+ b) +:+ c) = String x (a +:+ (b +:+ c))).
  by rewrite IH.
Qed.

Ltac exposeUnit u :=
  match goal with
  | |- context [String.append (String u EmptyString) ?x] =>
      change (String.append (String u EmptyString) x) with (String u x)
  end.

Lemma FindName_DurationString_hours d :
  Hour <= d -> FindName (DurationString d) = fmtInt (d / Hour) +:+ "h".
Proof.
  intros Hd. assert (H3600 : Hour = 10 ^ 9 * 60 * 60) by reflexivity.
  assert (HS : Second = 10 ^ 9) by reflexivity.
  unfold DurationString. rewrite Z.abs_eq by lia.
  destruct (Z.ltb_spec d Second); [lia|].
  pose proof (fmtFrac_snd 9 d false "s") as Hs.
  destruct (fmtFrac 9 d false "s") as [f s]. simpl in Hs.
  change (10 ^ Z.of_nat 9) with (10 ^ 9) in Hs.
  assert (Hh : s / 60 / 60 = d / Hour).
  { rewrite Hs, H3600, !Z.div_div by lia. f_equal. }
  assert (1 <= d / Hour) by (apply Z.div_le_lower_bound; lia).
  assert (1 <= s / 60).
  { destruct (Z_lt_ge_dec (s / 60) 1) as [Hlt|]; [|lia].
    assert (s / 60 / 60 <= 0); [|lia].
    apply Z.lt_succ_r. apply Z.div_lt_upper_bound; lia. }
  destruct (Z.ltb_spec 0 (s / 60)); [|lia].
  rewrite Hh. destruct (Z.ltb_spec 0 (d / Hour)); [|lia].
  destruct (Z.ltb_spec d 0); [lia|].
  destruct (fmtInt_digits (d / Hour)) as [Hdig Hne].
  exposeUnit ("h"%char). by rewrite (FindName_unit _ "h" _ Hdig Hne eq_refl).
Qed.

Lemma FindName_DurationString_minutes d :
  Minute <= d < Hour ->
  FindName (DurationString d) = fmtInt (d / Minute) +:+ "m".
Proof.
  intros Hd. assert (HH : Hour = 10 ^ 9 * 60 * 60) by reflexivity.
  assert (HM : Minute = 10 ^ 9 * 60) by reflexivity.
  assert (HS : Second = 10 ^ 9) by reflexivity.
  unfold DurationString. rewrite Z.abs_eq by lia.
  destruct (Z.ltb_spec d Second); [lia|].
  pose proof (fmtFrac_snd 9 d false "s") as Hs.
  destruct (fmtFrac 9 d false "s") as [f s]. simpl in Hs.
  change (10 ^ Z.of_nat 9) with (10 ^ 9) in Hs.
  assert (Hm : s / 60 = d / Minute).
  { rewrite Hs, HM, !Z.div_div by lia. f_equal. }
  assert (1 <= d / Minute) by (apply Z.div_le_lower_bound; lia).
  assert (d / Minute < 60) by (apply Z.div_lt_upper_bound; lia).
  rewrite Hm. destruct (Z.ltb_spec 0 (d / Minute)); [|lia].
  rewrite (Z.div_small (d / Minute) 60) by lia.
  rewrite (Z.mod_small (d / Minute) 60) by lia.
  destruct (Z.ltb_spec 0 0); [lia|].
  destruct (Z.ltb_spec d 0); [lia|].
  destruct (fmtInt_digits (d / Minute)) as [Hdig Hne].
  rewrite string_append_assoc.
  exposeUnit ("m"%char). by rewrite (FindName_unit _ "m" _ Hdig Hne eq_refl).
Qed.

Lemma FindName_DurationString_seconds d :
  Second <= d < Minute -> FindName (DurationString d) = EmptyString.
Proof.
  intros Hd. assert (HM : Minute = 10 ^ 9 * 60) by reflexivity.
  assert (HS : Second = 10 ^ 9) by reflexivity.
  unfold DurationString. rewrite Z.abs_eq by lia.
  destruct (Z.ltb_spec d Second); [lia|].
  pose proof (fmtFrac_snd 9 d false "s") as Hs.
  pose proof (fmtFrac_fst_shape 9 d "s") as Hf.
  destruct (fmtFrac 9 d false "s") as [f s]. simpl in Hs, Hf.
  change (10 ^ Z.of_nat 9) with (10 ^ 9) in Hs.
  assert (s < 60) by (rewrite Hs; apply Z.div_lt_upper_bound; lia).
  assert (0 <= s) by (rewrite Hs; apply Z.div_pos; lia).
  rewrite (Z.div_small s 60) by lia.
  destruct (Z.ltb_spec 0 0); [lia|].
  destruct (Z.ltb_spec d 0); [lia|].
  destruct (fmtInt_digits (s mod 60)) as [Hdig Hne].
  destruct Hf as [-> | [r ->]].
  - by rewrite (FindName_unit _ "s" _ Hdig Hne eq_refl).
  - by rewrite (FindName_unit _ "." _ Hdig Hne eq_refl).
Qed.

Lemma FindName_DurationString_millis d :
  Millisecond <= d < Second -> d mod Millisecond = 0 ->
  FindName (DurationString d) = fmtInt (d / Millisecond) +:+ "m".
Proof.
  intros Hd Hmod.
  assert (HS : Second = 10 ^ 9) by reflexivity.
  assert (Hms : Millisecond = 10 ^ 6) by reflexivity.
  assert (Hus : Microsecond = 10 ^ 3) by reflexivity.
  unfold DurationString. rewrite Z.abs_eq by lia.
  destruct (Z.ltb_spec d Second); [|lia].
  destruct (Z.eqb_spec d 0); [lia|].
  destruct (Z.ltb_spec d Microsecond); [lia|].
  destruct (Z.ltb_spec d Millisecond); [lia|].
  pose proof (fmtFrac_snd 6 d false "ms") as Hs.
  pose proof (fmtFrac_fst_zero 6 d "ms") as Hf.
  destruct (fmtFrac 6 d false "ms") as [f v]. simpl in Hs, Hf.
  change (10 ^ Z.of_nat 6) with (10 ^ 6) in Hs, Hf.
  rewrite Hf by (apply Z.mod_divide; [lia | by rewrite <- Hms]).
  rewrite Hs, <- Hms.
  destruct (Z.ltb_spec d 0); [lia|].
  destruct (fmtInt_digits (d / Millisecond)) as [Hdig Hne].
  by rewrite (FindName_unit _ "m" _ Hdig Hne eq_refl).
Qed.

Lemma FindName_DurationString_nonpositive d :
  d <= 0 -> FindName (DurationString d) = EmptyString.
Proof.
  intros Hd. destruct (Z.eq_dec d 0) as [->|Hne]; [reflexivity|].
  unfold DurationString. destruct (Z.ltb_spec d 0); [|lia]. reflexivity.
Qed.

(** The name [NewBucket] derives: the whole hours followed by "h" for a
    duration of an hour or more, whatever its minutes and seconds; the
    whole minutes followed by "m" from a minute up to an hour; and the
    empty string from a second up to a minute and for a duration that is
    zero or negative. *)
Theorem NewBucket_Name (d : GoTime.Duration) :
  Duration (NewBucket d) = d
  /\ (Hour <= d -> Name (NewBucket d) = fmtInt (d / Hour) +:+ "h")
  /\ (Minute <= d < Hour ->
      Name (NewBucket d) = fmtInt (d / Minute) +:+ "m")
  /\ (Second <= d < Minute -> Name (NewBucket d) = EmptyString)
  /\ (d <= 0 -> Name (NewBucket d) = EmptyString).
Proof.
  split; [reflexivity|]. split; [|split; [|split]]; intros Hd; simpl.
  - by apply FindName_DurationString_hours.
  - by apply FindName_DurationString_minutes.
  - by apply FindName_DurationString_seconds.
  - by apply FindName_DurationString_nonpositive.
Qed.

Lemma NewBucket_Name_witness :
  Name (NewBucket (90 * Minute)) = "1h"
  /\ Name (NewBucket (59 * Minute + 59 * Second)) = "59m"
  /\ Name (NewBucket (30 * Second)) = ""
  /\ Name (NewBucket (- Hour)) = "".
Proof.
  destruct (NewBucket_Name (90 * Minute)) as (_ & H1 & _).
  destruct (NewBucket_Name (59 * Minute + 59 * Second)) as (_ & _ & H2 & _).
  destruct (NewBucket_Name (30 * Second)) as (_ & _ & _ & H3 & _).
  destruct (NewBucket_Name (- Hour)) as (_ & _ & _ & _ & H4).
  split; [|split; [|split]].
  - rewrite H1; [reflexivity | vm_compute; congruence].
  - rewrite H2; [reflexivity | vm_compute; split; [congruence|reflexivity]].
  - rewrite H3; [reflexivity | vm_compute; split; [congruence|reflexivity]].
  - rewrite H4; [reflexivity | vm_compute; congruence].
Defined.

(** Names do not tell durations apart: two durations of an hour or more
    with the same whole hours have the same name, and a whole number of
    milliseconds from 1 to 59 has the name of that many minutes. *)
Theorem NewBucket_Name_collisions :
  (forall d d' : GoTime.Duration,
     Hour <= d -> Hour <= d' -> d / Hour = d' / Hour ->
     Name (NewBucket d) = Name (NewBucket d'))
  /\ (forall k : Z,
        1 <= k <= 59 ->
        Name (NewBucket (k * Millisecond)) = Name (NewBucket (k * Minute))).
Proof.
  split.
  - intros d d' Hd Hd' Heq. simpl.
    rewrite !FindName_DurationString_hours by done. by rewrite Heq.
  - intros k Hk. simpl.
    assert (Hms : Millisecond = 10 ^ 6) by reflexivity.
    assert (HS : Second = 10 ^ 9) by reflexivity.
    assert (HM : Minute = 10 ^ 9 * 60) by reflexivity.
    assert (HH : Hour = 10 ^ 9 * 60 * 60) by reflexivity.
    rewrite FindName_DurationString_millis
      by (rewrite ?Z.mod_mul; lia).
    rewrite FindName_DurationString_minutes by lia.
    by rewrite !Z.div_mul by lia.
Qed.

Lemma NewBucket_Name_collisions_witness :
  Name (NewBucket (90 * Minute)) = Name (NewBucket Hour)
  /\ Name (NewBucket (5 * Millisecond)) = Name (NewBucket (5 * Minute)).
Proof.
  destruct NewBucket_Name_collisions as [H1 H2]. split.
  - apply H1; vm_compute; congruence.
  - apply H2. lia.
Defined.

(** Two breakers for the same feature whose windows are an hour or more
    and agree in their whole hours share the trip key, the warning key
    and every counter key, whatever their stores, buckets and TTLs. *)
Theorem NewCircuitBreaker_shared_keys {S S' : Type}
        (sortSlice sortSlice' :
           (Bucket -> Bucket -> bool) -> list Bucket -> list Bucket)
        (cache : Cache.t S) (cache' : Cache.t S')
        (buckets buckets' : list Bucket)
        (cacheTTL cacheTTL' : GoTime.Duration) (featureName : string)
        (windowDuration windowDuration' : GoTime.Duration) :
  Hour <= windowDuration -> Hour <= windowDuration' ->
  windowDuration / Hour = windowDuration' / Hour ->
  let c := NewCircuitBreaker sortSlice cache buckets cacheTTL featureName
             windowDuration in
  let c' := NewCircuitBreaker sortSlice' cache' buckets' cacheTTL'
              featureName windowDuration' in
  GetWindowDurationStr c = fmtInt (windowDuration / Hour) +:+ "h"
  /\ TripKey c = TripKey c'
  /\ WarningAlertKey c = WarningAlertKey c'
  /\ forall bucketName timestamp,
       getTimePointKey c bucketName timestamp
       = getTimePointKey c' bucketName timestamp.
Proof.
  intros HW HW' Heq c c'.
  assert (Hc : WindowDurationStr c = fmtInt (windowDuration / Hour) +:+ "h").
  { unfold c. simpl. by apply FindName_DurationString_hours. }
  assert (Hc' : WindowDurationStr c' = WindowDurationStr c).
  { rewrite Hc. unfold c'. simpl.
    rewrite FindName_DurationString_hours by done. by rewrite Heq. }
  split; [exact Hc|].
  split; [|split].
  - change (TripKey c)
      with ("cb-trip-" +:+ featureName +:+ "-" +:+ WindowDurationStr c).
    change (TripKey c')
      with ("cb-trip-" +:+ featureName +:+ "-" +:+ WindowDurationStr c').
    by rewrite Hc'.
  - change (WarningAlertKey c)
      with ("cb-warning_alert-" +:+ featureName +:+ "-"
              +:+ WindowDurationStr c).
    change (WarningAlertKey c')
      with ("cb-warning_alert-" +:+ featureName +:+ "-"
              +:+ WindowDurationStr c').
    by rewrite Hc'.
  - intros bucketName timestamp. unfold getTimePointKey.
    rewrite Hc'. reflexivity.
Qed.

Lemma NewCircuitBreaker_shared_keys_witness :
  TripKey (NewCircuitBreaker insertionSort Fixture.emptyCache []
             (GoInt.mul 24 Hour) "test" (24 * Hour))
  = TripKey (NewCircuitBreaker insertionSort Fixture.emptyCache []
               (GoInt.mul 24 Hour) "test" (24 * Hour + 30 * Minute)).
Proof.
  apply (NewCircuitBreaker_shared_keys insertionSort insertionSort
           Fixture.emptyCache Fixture.emptyCache [] []
           (GoInt.mul 24 Hour) (GoInt.mul 24 Hour) "test"
           (24 * Hour) (24 * Hour + 30 * Minute));
    vm_compute; congruence.
Defined.
